(** * Phase-only GN/LM calibration solver (solver-multichunk.py)

    A shallow embedding of [compute_jhr], [compute_jhjinv], [compute_update],
    [compute_residual], [full_pol_phase_only] and [apply_gains].

    Numbers.  numpy's float64 and complex128 are idealised as the real numbers
    [R] and pairs of reals: the development speaks of the algorithm in exact
    arithmetic.  The only non-finite float the program itself writes down,
    [np.inf] as the initial chi-squared, is kept as a separate constructor.

    Arrays.  The driver feeds the solver arrays of layout
    [time, freq, antenna, antenna, 2, 2]; a visibility array is a shape
    [(nt, nf, na)] together with an index function into 2x2 blocks, and a
    per-antenna array (gains, phases, (J^H J)^-1) is a shape with an index
    function of three arguments.  The einsum contractions are written out
    index by index.  The kernels are specified for operands whose shapes
    agree; numpy's own broadcasting and its shape errors are not modelled.

    Limits of the idealisation.  Over the reals nothing overflows,
    underflows or rounds, and no value is [inf] or NaN.  Statements whose
    truth in binary64 depends on that carry a hypothesis that keeps the
    input in range, and [compute_jhjinv] is embedded a second time over
    binary64 ([compute_jhjinv_f64]) to show what happens out of range. *)

From Stdlib Require Import Reals Lra Lia ZArith List String Bool.
From Stdlib Require Floats Uint63.
Import ListNotations.

Open Scope R_scope.

(** ** Complex scalars *)

Record C : Type := mkC { Re : R; Im : R }.

Definition C0 : C := mkC 0 0.
Definition C1 : C := mkC 1 0.
Definition RtoC (x : R) : C := mkC x 0.

Definition Cadd (a b : C) : C := mkC (Re a + Re b) (Im a + Im b).
Definition Csub (a b : C) : C := mkC (Re a - Re b) (Im a - Im b).
Definition Copp (a : C) : C := mkC (- Re a) (- Im a).
Definition Cmul (a b : C) : C :=
  mkC (Re a * Re b - Im a * Im b) (Re a * Im b + Im a * Re b).
Definition Cconj (a : C) : C := mkC (Re a) (- Im a).

(** [abs(z)] of numpy: the modulus. *)
Definition Cabs (a : C) : R := sqrt (Re a * Re a + Im a * Im a).

(** [1./z] for a complex [z]. *)
Definition Crecip (a : C) : C :=
  mkC (Re a / (Re a * Re a + Im a * Im a))
      (- Im a / (Re a * Re a + Im a * Im a)).

(** [np.exp] on a complex argument. *)
Definition Cexp (a : C) : C :=
  mkC (exp (Re a) * cos (Im a)) (exp (Re a) * sin (Im a)).

(** The literal [-1j]. *)
Definition minus_j : C := mkC 0 (-1).

Declare Scope C_scope.
Delimit Scope C_scope with C.
Bind Scope C_scope with C.
Infix "+" := Cadd : C_scope.
Infix "-" := Csub : C_scope.
Infix "*" := Cmul : C_scope.

(** ** 2x2 blocks and short vectors *)

Record M2 (T : Type) : Type := mkM2 { m00 : T; m01 : T; m10 : T; m11 : T }.
Arguments mkM2 {T} _ _ _ _.
Arguments m00 {T} _.
Arguments m01 {T} _.
Arguments m10 {T} _.
Arguments m11 {T} _.

Record V2 (T : Type) : Type := mkV2 { v0 : T; v1 : T }.
Arguments mkV2 {T} _ _.
Arguments v0 {T} _.
Arguments v1 {T} _.

Definition M2map {S T : Type} (f : S -> T) (a : M2 S) : M2 T :=
  mkM2 (f (m00 a)) (f (m01 a)) (f (m10 a)) (f (m11 a)).

Definition M2map2 {S T U : Type} (f : S -> T -> U) (a : M2 S) (b : M2 T) : M2 U :=
  mkM2 (f (m00 a) (m00 b)) (f (m01 a) (m01 b))
       (f (m10 a) (m10 b)) (f (m11 a) (m11 b)).

Definition M2zero : M2 C := mkM2 C0 C0 C0 C0.
Definition M2id : M2 C := mkM2 C1 C0 C0 C1.

(** "...ij,...jk->...ik": the matrix product of two blocks. *)
Definition M2mul (a b : M2 C) : M2 C :=
  mkM2 (m00 a * m00 b + m01 a * m10 b)%C (m00 a * m01 b + m01 a * m11 b)%C
       (m10 a * m00 b + m11 a * m10 b)%C (m10 a * m01 b + m11 a * m11 b)%C.

(** "...ij,...kj->...ik": the product with the transposed second operand. *)
Definition M2mulT (a b : M2 C) : M2 C :=
  mkM2 (m00 a * m00 b + m01 a * m01 b)%C (m00 a * m10 b + m01 a * m11 b)%C
       (m10 a * m00 b + m11 a * m01 b)%C (m10 a * m10 b + m11 a * m11 b)%C.

Definition M2conj (a : M2 C) : M2 C := M2map Cconj a.
Definition M2transpose {T : Type} (a : M2 T) : M2 T :=
  mkM2 (m00 a) (m10 a) (m01 a) (m11 a).
Definition M2add (a b : M2 C) : M2 C := M2map2 Cadd a b.
Definition M2sub (a b : M2 C) : M2 C := M2map2 Csub a b.

(** [a[..., ::-1, ::-1]]: both axes of a block reversed. *)
Definition M2flip {T : Type} (a : M2 T) : M2 T :=
  mkM2 (m11 a) (m10 a) (m01 a) (m00 a).

(** Squared modulus of every entry, summed: the block's share of
    [np.linalg.norm(...)**2]. *)
Definition M2abs2 (a : M2 C) : R :=
  Cabs (m00 a) * Cabs (m00 a) + Cabs (m01 a) * Cabs (m01 a)
  + Cabs (m10 a) * Cabs (m10 a) + Cabs (m11 a) * Cabs (m11 a).

(** ** Arrays *)

Record shape : Type := mkShape { nt : nat; nf : nat; na : nat }.

(** [t, f, antenna p, antenna q, 2, 2] *)
Record visarr : Type := mkVis {
  vshape : shape;
  vdat : nat -> nat -> nat -> nat -> M2 C
}.

(** [t, f, antenna, ...] with a block of type [T] per antenna. *)
Record antarr (T : Type) : Type := mkAnt {
  ashape : shape;
  adat : nat -> nat -> nat -> T
}.
Arguments mkAnt {T} _ _.
Arguments ashape {T} _.
Arguments adat {T} _ _ _ _.

Definition gainarr : Type := antarr (M2 C).
Definition phasearr : Type := antarr (V2 R).

Definition shape_eqb (s1 s2 : shape) : bool :=
  (nt s1 =? nt s2)%nat && (nf s1 =? nf s2)%nat && (na s1 =? na s2)%nat.

(** [np.sum] along an axis of length [n]. *)
Fixpoint sum_upto (n : nat) (f : nat -> R) : R :=
  match n with
  | O => 0
  | S k => sum_upto k f + f k
  end.

Fixpoint M2sum_upto (n : nat) (f : nat -> M2 C) : M2 C :=
  match n with
  | O => M2zero
  | S k => M2add (M2sum_upto k f) (f k)
  end.

(** [np.linalg.norm] of an array: the 2-norm of the flattened array. *)
Definition norm_ant (a : gainarr) : R :=
  sqrt (sum_upto (nt (ashape a)) (fun t =>
        sum_upto (nf (ashape a)) (fun f =>
        sum_upto (na (ashape a)) (fun p => M2abs2 (adat a t f p))))).

Definition norm_vis (a : visarr) : R :=
  sqrt (sum_upto (nt (vshape a)) (fun t =>
        sum_upto (nf (vshape a)) (fun f =>
        sum_upto (na (vshape a)) (fun p =>
        sum_upto (na (vshape a)) (fun q => M2abs2 (vdat a t f p q)))))).

(** ** compute_jhjinv *)

(** [to_norm], the fixed 4x4 integer matrix. *)
Definition to_norm : list (list Z) :=
  [[2; 0; 0; 0]; [1; 0; 0; 1]; [1; 0; 0; 1]; [0; 0; 0; 2]]%Z.

(** A block reshaped to its four entries, row-major. *)
Definition flatten4 {T : Type} (a : M2 T) : list T :=
  [m00 a; m01 a; m10 a; m11 a].

(** A list of four entries reshaped to a block; [d] pads a short list. *)
Definition reshape22 {T : Type} (d : T) (l : list T) : M2 T :=
  mkM2 (nth 0 l d) (nth 1 l d) (nth 2 l d) (nth 3 l d).

(** [v.dot(m)] for a 4-vector [v]: entry [j] is the sum over [i] of
    [v[i] * m[i][j]]. *)
Definition dot4 (v : list R) (m : list (list Z)) : list R :=
  map (fun j =>
         fold_right Rplus 0
           (map (fun i => nth i v 0 * IZR (nth j (nth i m []) 0%Z)) (seq 0 4)))
      (seq 0 4).

(** [np.sum(abs(model.reshape(..., 4))**2, axis=-2)] at antenna [p]: for each
    of the four correlations, the squared moduli summed over antenna [q]. *)
Definition abs2_sum (model : visarr) (t f p : nat) : list R :=
  map (fun k =>
         sum_upto (na (vshape model))
           (fun q => let z := nth k (flatten4 (vdat model t f p q)) C0 in
                     Cabs z * Cabs z))
      (seq 0 4).

(** The mask [jhjinv != 0]. *)
Definition nonzero (x : R) : bool := if Req_dec_T x 0 then false else true.

(** [jhjinv[jhjinv != 0]] on the right of line 61: the entries the mask
    selects, in order.  These are the divisors. *)
Definition divisors (l : list R) : list R := filter nonzero l.

(** [a[mask] = vals]: the selected positions of [a] take the values of
    [vals] in order, the others keep theirs. *)
Fixpoint scatter (a vals : list R) : list R :=
  match a with
  | [] => []
  | x :: a' =>
      if nonzero x then
        match vals with
        | v :: vals' => v :: scatter a' vals'
        | [] => x :: scatter a' []
        end
      else x :: scatter a' vals
  end.

(** Line 61, [jhjinv[jhjinv != 0] = 1./jhjinv[jhjinv != 0]]. *)
Definition invert_nonzero (l : list R) : list R :=
  scatter l (map (fun d => 1 / d) (divisors l)).

(** What line 61 does to one entry. *)
Definition masked_recip (x : R) : R := if nonzero x then 1 / x else x.

Definition normalised (model : visarr) (t f p : nat) : list R :=
  dot4 (abs2_sum model t f p) to_norm.

(** Over the reals the squared moduli are summed exactly; the overflow of
    [abs(model)**2] to [inf] and its underflow to [0.0] in binary64 are not
    seen here (see [compute_jhjinv_f64]). *)
Definition compute_jhjinv (model : visarr) : antarr (M2 R) :=
  mkAnt (vshape model)
        (fun t f p => reshape22 0 (invert_nonzero (normalised model t f p))).

(** ** compute_jhr *)

Definition Csum (l : list C) : C := fold_right Cadd C0 l.

(** [spec_eye]: zeros of shape [2, 4] with entries (0,0) and (1,3) set to 1. *)
Definition spec_eye : list (list R) := [[1; 0; 0; 0]; [0; 0; 0; 1]].

(** The rows of a block. *)
Definition rows {T : Type} (a : M2 T) : list (list T) :=
  [[m00 a; m01 a]; [m10 a; m11 a]].

(** [ghi]: "...ij,...jk->...ik" of [gains.conj()] (2x2) with [spec_eye] (2x4). *)
Definition ghi_block (g : M2 C) : list (list C) :=
  map (fun row =>
         map (fun k =>
                Csum (map (fun j => (nth j row C0 * RtoC (nth k (nth j spec_eye []) 0))%C)
                          (seq 0 2)))
             (seq 0 4))
      (rows (M2conj g)).

(** [rgmh] after [np.sum(rgmh, axis=-3)]: for antenna [p], the sum over [q]
    of [obser[p,q] . gains[q] . model[p,q]^H]. *)
Definition rgmh_sum (obser model : visarr) (gains : gainarr) (t f p : nat) : M2 C :=
  M2sum_upto (na (vshape model))
    (fun q => M2mulT (M2mul (vdat obser t f p q) (adat gains t f q))
                     (M2conj (vdat model t f p q))).

(** [ghirgmh]: [ghi] (2x4) times [rgmh] reshaped to 4x1. *)
Definition ghirgmh_block (ghi : list (list C)) (r : M2 C) : list C :=
  map (fun row =>
         Csum (map (fun k => (nth k row C0 * nth k (flatten4 r) C0)%C) (seq 0 4)))
      ghi.

Definition compute_jhr (obser model : visarr) (gains : gainarr) : antarr (V2 R) :=
  mkAnt (vshape model)
    (fun t f p =>
       let v := ghirgmh_block (ghi_block (adat gains t f p))
                              (rgmh_sum obser model gains t f p) in
       mkV2 (-2 * Im (nth 0 v C0)) (-2 * Im (nth 1 v C0))).

(** ** compute_update *)

(** "...ij,...jk->...ik" of a real 2x2 block with a real 2x1 block. *)
Definition M2Rapply (a : M2 R) (v : V2 R) : V2 R :=
  mkV2 (m00 a * v0 v + m01 a * v1 v) (m10 a * v0 v + m11 a * v1 v).

Definition compute_update (model obser : visarr) (gains : gainarr)
                          (jhjinv : antarr (M2 R)) : antarr (V2 R) :=
  let jhr := compute_jhr obser model gains in
  mkAnt (ashape jhjinv) (fun t f p => M2Rapply (adat jhjinv t f p) (adat jhr t f p)).

(** ** compute_residual *)

(** [gmgh]: [gains[l] . model[l,m] . gains[m]^H]. *)
Definition gmgh_block (gains : gainarr) (model : visarr) (t f l m : nat) : M2 C :=
  M2mulT (M2mul (adat gains t f l) (vdat model t f l m)) (M2conj (adat gains t f m)).

Definition compute_residual (obser model : visarr) (gains : gainarr) : visarr :=
  mkVis (vshape model)
        (fun t f l m => M2sub (vdat obser t f l m) (gmgh_block gains model t f l m)).

(** ** full_pol_phase_only *)

(** [np.einsum("...ij,...jk", np.exp(-1j*phases), np.ones([1, 2]))]: the
    outer product of the 2x1 block of exponentials with a row of ones. *)
Definition exp_outer (ph : V2 R) : M2 C :=
  let e0 := Cexp (minus_j * RtoC (v0 ph))%C in
  let e1 := Cexp (minus_j * RtoC (v1 ph))%C in
  mkM2 (e0 * RtoC 1)%C (e0 * RtoC 1)%C (e1 * RtoC 1)%C (e1 * RtoC 1)%C.

(** [gains[..., (0, 1), (1, 0)] = 0]: entries (0,1) and (1,0) are overwritten. *)
Definition zero_offdiag (a : M2 C) : M2 C := mkM2 (m00 a) C0 C0 (m11 a).

Definition gains_of_phases (phases : phasearr) : gainarr :=
  mkAnt (ashape phases) (fun t f p => zero_offdiag (exp_outer (adat phases t f p))).

Definition zero_phases (s : shape) : phasearr :=
  mkAnt s (fun _ _ _ => mkV2 0 0).

(** The keyword arguments. *)
Record config : Type := mkConfig {
  min_delta_g : R;
  maxiter : Z;
  chi_tol : R;
  chi_interval : Z
}.

Definition default_config : config := mkConfig (1 / 1000) 30 (1 / 1000000) 5.

(** The value of [chi]: a norm, or [np.inf] before the first check. *)
Inductive chi_val : Type :=
| Fin (x : R)
| Inf.

Definition Rltb (a b : R) : bool := if Rlt_dec a b then true else false.

(** [(old_chi - chi) < chi_tol]: [inf - chi] is [inf], which is below nothing. *)
Definition improvement_below (old_chi : chi_val) (chi tol : R) : bool :=
  match old_chi with
  | Fin o => Rltb (o - chi) tol
  | Inf => false
  end.

(** [old_chi < chi] *)
Definition chi_increased (old_chi : chi_val) (chi : R) : bool :=
  match old_chi with
  | Fin o => Rltb o chi
  | Inf => false
  end.

(** The local variables of the loop at the [while] test. *)
Record state : Type := mkState {
  phases : phasearr;
  gains : gainarr;
  delta_g : R;
  iters : Z;
  chi : chi_val
}.

(** The [return] statement that ends a call: line 163 (iteration cap),
    line 169 (chi-squared improvement below [chi_tol]), line 172 (after
    printing [Bad solutions.]) or line 176 (the [while] test failed). *)
Inductive exit_point : Type :=
| ExitMaxiter
| ExitChiTol
| ExitBadSolutions
| ExitDeltaG.

(** What a caller can observe of a call that returns: the returned array and
    the lines printed.  [ret_exit] and [ret_iters] record which [return] was
    taken and how many times the loop body ran; they are not part of the
    returned value. *)
Record result : Type := mkResult {
  ret_gains : gainarr;
  ret_stdout : list string;
  ret_exit : exit_point;
  ret_iters : nat
}.

(** The exceptions of the solver's own statements.  The [ValueError] that
    numpy raises inside an update when the two arrays do not broadcast has
    no constructor: on arrays of different shapes the model goes on where
    numpy may raise. *)
Inductive exn : Type :=
| ZeroDivisionError.

(** A call either returns or raises; [n] in [Raised] is the number of times
    the loop body was entered. *)
Inductive outcome : Type :=
| Returned (r : result)
| Raised (e : exn) (n : nat).

Definition iterations (o : outcome) : nat :=
  match o with
  | Returned r => ret_iters r
  | Raised _ n => n
  end.

Inductive step : Type :=
| Continue (st : state)
| Stop (g : gainarr) (out : list string) (e : exit_point)
| Throw (e : exn).

(** [fact]: 0.5 when [iters % 2 == 0], else 1. *)
Definition fact (iters : Z) : R :=
  if (iters mod 2 =? 0)%Z then 1 / 2 else 1.

(** [phases += fact*compute_update(model_arr, obser_arr, gains, jhjinv)].
    The phases are reals: an update that overflows to [inf] or is NaN in
    binary64, and the NaN gains rebuilt from it, are not seen here. *)
Definition next_phases (model obser : visarr) (jhjinv : antarr (M2 R))
                       (st : state) : phasearr :=
  let upd := compute_update model obser (gains st) jhjinv in
  mkAnt (ashape (phases st))
        (fun t f p =>
           mkV2 (v0 (adat (phases st) t f p) + fact (iters st) * v0 (adat upd t f p))
                (v1 (adat (phases st) t f p) + fact (iters st) * v1 (adat upd t f p))).

(** [delta_g - gains] for the copy [delta_g] of the gains before the update. *)
Definition gains_diff (old new : gainarr) : gainarr :=
  mkAnt (ashape old) (fun t f p => M2sub (adat old t f p) (adat new t f p)).

(** One execution of the loop body, lines 148-174. *)
Definition body (cfg : config) (model obser : visarr) (jhjinv : antarr (M2 R))
                (st : state) : step :=
  let phases' := next_phases model obser jhjinv st in
  let old_gains := gains st in
  let gains' := gains_of_phases phases' in
  let iters' := (iters st + 1)%Z in
  if (iters' >? maxiter cfg)%Z then Stop gains' [] ExitMaxiter
  else if (chi_interval cfg =? 0)%Z then Throw ZeroDivisionError
  else if (iters' mod chi_interval cfg =? 0)%Z then
    let old_chi := chi st in
    let chi' := norm_vis (compute_residual obser model gains') in
    if improvement_below old_chi chi' (chi_tol cfg) then Stop gains' [] ExitChiTol
    else if chi_increased old_chi chi' then
      Stop gains' ["Bad solutions."%string] ExitBadSolutions
    else Continue (mkState phases' gains' (norm_ant (gains_diff old_gains gains'))
                           iters' (Fin chi'))
  else Continue (mkState phases' gains' (norm_ant (gains_diff old_gains gains'))
                         iters' (chi st)).

(** The [while delta_g > min_delta_g] loop; [n] counts the executions of the
    body so far.  [None] means the fuel ran out before the loop ended. *)
Fixpoint loop (fuel : nat) (cfg : config) (model obser : visarr)
              (jhjinv : antarr (M2 R)) (n : nat) (st : state) : option outcome :=
  match fuel with
  | O => None
  | S fuel' =>
      if Rltb (min_delta_g cfg) (delta_g st) then
        match body cfg model obser jhjinv st with
        | Continue st' => loop fuel' cfg model obser jhjinv (S n) st'
        | Stop g out e => Some (Returned (mkResult g out e (S n)))
        | Throw e => Some (Raised e (S n))
        end
      else Some (Returned (mkResult (gains st) [] ExitDeltaG n))
  end.

(** Lines 132-144: the state before the first [while] test. *)
Definition init_state (model : visarr) : state :=
  let phases := zero_phases (vshape model) in
  mkState phases (gains_of_phases phases) 1 0 Inf.

Definition full_pol_phase_only (fuel : nat) (model obser : visarr)
                               (cfg : config) : option outcome :=
  loop fuel cfg model obser (compute_jhjinv model) 0 (init_state model).

(** The state at the [while] test after [k] executions of the body, when the
    loop gets that far. *)
Fixpoint state_after (k : nat) (cfg : config) (model obser : visarr)
                     (jhjinv : antarr (M2 R)) (st : state) : option state :=
  match k with
  | O => Some st
  | S k' =>
      match state_after k' cfg model obser jhjinv st with
      | Some st' =>
          if Rltb (min_delta_g cfg) (delta_g st') then
            match body cfg model obser jhjinv st' with
            | Continue st'' => Some st''
            | _ => None
            end
          else None
      | None => None
      end
  end.

(** The largest number of times the body can run: the cap is tested after
    the counter is incremented, so the body runs once even for a cap below
    one. *)
Definition max_iterations (cfg : config) : nat :=
  Z.to_nat (Z.max 1 (maxiter cfg + 1)).

(** ** apply_gains *)

(** [gains[..., 0, 0] * gains[..., 1, 1] - gains[..., 0, 1] * gains[..., 1, 0]] *)
Definition det2 (g : M2 C) : C := (m00 g * m11 g - m01 g * m10 g)%C.

(** The sign pattern [[1, -1], [-1, 1]]. *)
Definition signs : M2 Z := mkM2 1%Z (-1)%Z (-1)%Z 1%Z.

(** Lines 191-196 at one antenna.  At a zero determinant the code divides
    by zero and fills the block with NaN; here [Crecip] is then 0 and the
    block is zero, so statements about [apply_gains] ask for a non-zero
    determinant. *)
Definition inv_gains_block (g : M2 C) : M2 C :=
  let flipped := M2transpose (M2flip g) in
  let signed := M2map2 (fun s z => (RtoC (IZR s) * z)%C) signs flipped in
  M2map (fun z => (z * Crecip (det2 g))%C) signed.

Definition apply_gains (obser : visarr) (gains : gainarr) : visarr :=
  mkVis (vshape obser)
        (fun t f l m =>
           M2mulT (M2mul (inv_gains_block (adat gains t f l)) (vdat obser t f l m))
                  (M2conj (inv_gains_block (adat gains t f m)))).

(** The corrupted visibilities [G . V . G^H], as [compute_residual] forms
    them from the model. *)
Definition corrupt (vis : visarr) (gains : gainarr) : visarr :=
  mkVis (vshape vis) (fun t f l m => gmgh_block gains vis t f l m).

(** ** Concrete inputs *)

(** An array every block of which is [b]. *)
Definition const_vis (s : shape) (b : M2 C) : visarr := mkVis s (fun _ _ _ _ => b).

(** [np.zeros] of shape [s]. *)
Definition zeros_vis (s : shape) : visarr := const_vis s M2zero.

(** One time slot, one channel, one antenna. *)
Definition one_cell : shape := mkShape 1 1 1.

(** One time slot, one channel, two antennas. *)
Definition two_ants : shape := mkShape 1 1 2.

(** The default keyword arguments with [maxiter=0]. *)
Definition cfg_cap0 : config := mkConfig (1 / 1000) 0 (1 / 1000000) 5.

(** The default keyword arguments with [min_delta_g=1]. *)
Definition cfg_loose : config := mkConfig 1 30 (1 / 1000000) 5.

(** [min_delta_g=-1, chi_interval=1]: the [while] test never fails and
    chi-squared is checked in every iteration. *)
Definition cfg_every : config := mkConfig (-1) 30 (1 / 1000000) 1.

(** Unit visibilities for two antennas, and gains [diag(1j, 2)] at every
    antenna. *)
Definition unit_vis : visarr := const_vis two_ants M2id.
Definition skew_gains : gainarr :=
  mkAnt two_ants (fun _ _ _ => mkM2 (mkC 0 1) C0 C0 (mkC 2 0)).

(** One antenna whose model has unit flux in the (0,1) correlation only, an
    observation [pi/4 - (pi/2)j] in that correlation, and the default keyword
    arguments with [chi_interval=1]. *)
Definition model_bad : visarr := const_vis one_cell (mkM2 C0 C1 C0 C0).
Definition obser_bad : visarr :=
  const_vis one_cell (mkM2 C0 (mkC (PI / 4) (- (PI / 2))) C0 C0).
Definition cfg_chi1 : config := mkConfig (1 / 1000) 30 (1 / 1000000) 1.

(** The default keyword arguments with [chi_interval=0]. *)
Definition cfg_zero_interval : config := mkConfig (1 / 1000) 30 (1 / 1000000) 0.

(** The same with [chi_tol=-100]. *)
Definition cfg_chi1_neg : config := mkConfig (1 / 1000) 30 (-100) 1.

(** ** Predicates of the statements *)

(** The gain block [diag(exp(-1j*a), 1)]. *)
Definition phase_block (a : R) : M2 C :=
  mkM2 (mkC (cos a) (- sin a)) C0 C0 (mkC 1 0).

(** A state in which every antenna has phases [(a, 0)] and the matching
    gains, on the one-antenna shape. *)
Definition uniform_state (st : state) (a : R) : Prop :=
  (forall t f p, adat (phases st) t f p = mkV2 a 0)
  /\ (forall t f p, adat (gains st) t f p = phase_block a)
  /\ ashape (phases st) = one_cell
  /\ ashape (gains st) = one_cell.

(** The conjugate transpose of a block. *)
Definition M2H (a : M2 C) : M2 C := M2transpose (M2conj a).

(** An index into an array of shape [s] with antenna indices [l] and [m]. *)
Definition in_shape (s : shape) (t f l m : nat) : Prop :=
  (t < nt s)%nat /\ (f < nf s)%nat /\ (l < na s)%nat /\ (m < na s)%nat.

(** Every block of a gain array has zero (0,1) and (1,0) entries. *)
Definition offdiag_zero (g : gainarr) : Prop :=
  forall t f p, m01 (adat g t f p) = C0 /\ m10 (adat g t f p) = C0.

(** The relaxation schedule as the specification words it, on the 0-indexed
    number [k] of the iteration. *)
Definition relaxation (k : nat) : R := if Nat.even k then 1 / 2 else 1.

(** ** compute_jhjinv over binary64 *)

Definition f64 : Set := PrimFloat.float.

(** [t, f, antenna p, antenna q, 2, 2] of complex128: real and imaginary
    part of every entry. *)
Record visarr_f64 : Type := mkVisF {
  fshape : shape;
  fdat : nat -> nat -> nat -> nat -> M2 (f64 * f64)
}.

(** [abs] of a complex128 is the C library's [hypot] of its two parts.
    Annex F of C99 fixes [hypot(x, +-0) = fabs(x)] and [hypot(+-inf, y) =
    +inf]; elsewhere the result is [sqrt(x*x + y*y)] up to rounding and
    without the intermediate overflow, and is modelled by that expression. *)
Definition hypot_f64 (x y : f64) : f64 :=
  if PrimFloat.is_infinity x || PrimFloat.is_infinity y then PrimFloat.infinity
  else if PrimFloat.eqb y PrimFloat.zero then PrimFloat.abs x
  else if PrimFloat.eqb x PrimFloat.zero then PrimFloat.abs y
  else PrimFloat.sqrt (PrimFloat.add (PrimFloat.mul x x) (PrimFloat.mul y y)).

(** [abs(z)**2] *)
Definition abs2_f64 (z : f64 * f64) : f64 :=
  let a := hypot_f64 (fst z) (snd z) in PrimFloat.mul a a.

(** [np.sum] along an axis: the entries added one after the other. *)
Definition sum_f64 (l : list f64) : f64 := fold_left PrimFloat.add l PrimFloat.zero.

(** An entry of the integer matrix [to_norm] converted to binary64. *)
Definition Z_to_f64 (z : Z) : f64 := PrimFloat.of_uint63 (Uint63.of_Z z).

(** [v.dot(m)] over binary64. *)
Definition dot4_f64 (v : list f64) (m : list (list Z)) : list f64 :=
  map (fun j =>
         sum_f64 (map (fun i => PrimFloat.mul (nth i v PrimFloat.zero)
                                               (Z_to_f64 (nth j (nth i m []) 0%Z)))
                      (seq 0 4)))
      (seq 0 4).

(** The mask [jhjinv != 0]: true of NaN, false of both zeros. *)
Definition nonzero_f64 (x : f64) : bool := negb (PrimFloat.eqb x PrimFloat.zero).

(** Line 61 at one entry. *)
Definition masked_recip_f64 (x : f64) : f64 :=
  if nonzero_f64 x then PrimFloat.div PrimFloat.one x else x.

Definition compute_jhjinv_f64 (model : visarr_f64) : antarr (M2 f64) :=
  mkAnt (fshape model)
    (fun t f p =>
       let row := map (fdat model t f p) (seq 0 (na (fshape model))) in
       let s := map (fun k =>
                       sum_f64 (map (fun b =>
                                       abs2_f64 (nth k (flatten4 b)
                                                     (PrimFloat.zero, PrimFloat.zero)))
                                    row))
                    (seq 0 4) in
       reshape22 PrimFloat.zero (map masked_recip_f64 (dot4_f64 s to_norm))).

(** One antenna whose model visibility is [[2**600, 0], [0, 0]]. *)
Definition overflow_model : visarr_f64 :=
  mkVisF one_cell
         (fun _ _ _ _ =>
            mkM2 (FloatOps.Z.ldexp PrimFloat.one 600, PrimFloat.zero)
                 (PrimFloat.zero, PrimFloat.zero)
                 (PrimFloat.zero, PrimFloat.zero)
                 (PrimFloat.zero, PrimFloat.zero)).

(** The model visibilities of antenna [p] are few and small enough for the
    sums of [compute_jhjinv] to stay below the largest binary64 number: at
    most [2**20] antennas, and blocks whose squared moduli add up to at most
    [2**1000]. *)
Definition within_f64_range (model : visarr) (t f p : nat) : Prop :=
  (Z.of_nat (na (vshape model)) <= 2 ^ 20)%Z
  /\ forall q, (q < na (vshape model))%nat -> M2abs2 (vdat model t f p q) <= 2 ^ 1000.

(** ** The driver *)

(** What one pass of the driver's loop (lines 210-212) produces for a chunk:
    the corrected visibilities, with what the solver printed, or the
    exception the solver raised. *)
Inductive chunk_outcome : Type :=
| Corrected (v : visarr) (printed : list string)
| ChunkRaised (e : exn).

(** [gains = full_pol_phase_only(a, b)] with the default keyword arguments,
    then [corr_vis = apply_gains(b, gains)], for the pair [b, a] of observed
    and model visibilities the data handler yields. *)
Definition calibrate_chunk (fuel : nat) (obser model : visarr) : option chunk_outcome :=
  match full_pol_phase_only fuel model obser default_config with
  | Some (Returned r) => Some (Corrected (apply_gains obser (ret_gains r)) (ret_stdout r))
  | Some (Raised e _) => Some (ChunkRaised e)
  | None => None
  end.

(** ** Further predicates and operations of the statements *)

(** Unit gains at every antenna. *)
Definition identity_gains (s : shape) : gainarr := mkAnt s (fun _ _ _ => M2id).

(** The antenna-wise product of two gain arrays. *)
Definition gains_mul (g1 g2 : gainarr) : gainarr :=
  mkAnt (ashape g1) (fun t f p => M2mul (adat g1 t f p) (adat g2 t f p)).

(** Every entry of every gain block multiplied by [exp(-1j*theta)]. *)
Definition rotate_gains (theta : R) (g : gainarr) : gainarr :=
  mkAnt (ashape g)
        (fun t f p => M2map (fun z => (Cexp (minus_j * RtoC theta) * z)%C) (adat g t f p)).

(** Antenna [p] has no model flux in cell [(t, f)]. *)
Definition no_flux (model : visarr) (t f p : nat) : Prop :=
  forall q, (q < na (vshape model))%nat -> vdat model t f p q = M2zero.

(** Every block of the array within its shape has a non-zero determinant. *)
Definition nonsingular (g : gainarr) : Prop :=
  forall t f p,
    (t < nt (ashape g))%nat -> (f < nf (ashape g))%nat -> (p < na (ashape g))%nat ->
    det2 (adat g t f p) <> C0.

(** The gains of a state are the ones computed from its phases. *)
Definition tied (st : state) : Prop := gains st = gains_of_phases (phases st).

(** The visibility of the baseline [(m, l)] is the conjugate transpose of
    that of [(l, m)]. *)
Definition hermitian_pair (v : visarr) (t f l m : nat) : Prop :=
  vdat v t f m l = M2H (vdat v t f l m).

(** A second gain array for two antennas: [diag(3, 1j)] at every antenna. *)
Definition other_gains : gainarr :=
  mkAnt two_ants (fun _ _ _ => mkM2 (mkC 3 0) C0 C0 (mkC 0 1)).

(** ** Tactics *)

(** Unfold the block and scalar operations down to real arithmetic. *)
Ltac C_unfold :=
  cbv beta iota delta
      [M2H M2id M2zero M2mul M2mulT M2conj M2add M2sub M2transpose
       M2flip M2map M2map2 det2 Crecip Cadd Csub Cmul Cconj RtoC C1 C0
       m00 m01 m10 m11 Re Im] in *.

Ltac M2_ring := C_unfold; f_equal; f_equal; ring.

(** * Properties *)

(** ** Scalars and sums *)

Lemma Cabs_sqr (z : C) : Cabs z * Cabs z = Re z * Re z + Im z * Im z.
Proof.
  unfold Cabs. apply sqrt_sqrt. nra.
Qed.

Lemma Cabs_C0 : Cabs C0 = 0.
Proof.
  unfold Cabs, C0; cbn [Re Im].
  replace (0 * 0 + 0 * 0) with 0 by ring. apply sqrt_0.
Qed.

Lemma sum_upto_ext (n : nat) (f g : nat -> R) :
  (forall i, (i < n)%nat -> f i = g i) -> sum_upto n f = sum_upto n g.
Proof.
  induction n as [|n IH]; intros H; cbn [sum_upto]; [reflexivity|].
  rewrite IH by (intros i Hi; apply H; lia).
  rewrite (H n) by lia. reflexivity.
Qed.

Lemma sum_upto_zero (n : nat) (f : nat -> R) :
  (forall i, (i < n)%nat -> f i = 0) -> sum_upto n f = 0.
Proof.
  induction n as [|n IH]; intros H; cbn [sum_upto]; [reflexivity|].
  rewrite IH by (intros i Hi; apply H; lia).
  rewrite (H n) by lia. ring.
Qed.

Lemma sum_upto_nonneg (n : nat) (f : nat -> R) :
  (forall i, 0 <= f i) -> 0 <= sum_upto n f.
Proof.
  intros H. induction n as [|n IH]; cbn [sum_upto]; [lra|].
  specialize (H n). lra.
Qed.

Lemma abs2_term_nonneg (z : C) : 0 <= Cabs z * Cabs z.
Proof. rewrite Cabs_sqr. nra. Qed.

(** ** The masked reciprocal *)

Lemma nonzero_true (x : R) : nonzero x = true <-> x <> 0.
Proof.
  unfold nonzero. destruct (Req_dec_T x 0); split; intros H;
    try discriminate; try reflexivity; try assumption. contradiction.
Qed.

Lemma nonzero_false (x : R) : nonzero x = false <-> x = 0.
Proof.
  unfold nonzero. destruct (Req_dec_T x 0); split; intros H;
    try discriminate; try reflexivity; try assumption. contradiction.
Qed.

Lemma masked_recip_zero : masked_recip 0 = 0.
Proof.
  unfold masked_recip.
  replace (nonzero 0) with false; [reflexivity|].
  symmetry. apply nonzero_false. reflexivity.
Qed.

Lemma masked_recip_is_zero (x : R) : x = 0 -> masked_recip x = 0.
Proof. intros ->. apply masked_recip_zero. Qed.

Lemma masked_recip_nonzero (x : R) : x <> 0 -> masked_recip x = / x.
Proof.
  intros H. unfold masked_recip.
  replace (nonzero x) with true by (symmetry; apply nonzero_true; exact H).
  field. exact H.
Qed.

Lemma masked_recip_nonneg (x : R) : 0 <= x -> 0 <= masked_recip x.
Proof.
  intros H. destruct (Req_dec_T x 0) as [E|N].
  - subst x. rewrite masked_recip_zero. lra.
  - rewrite masked_recip_nonzero by exact N.
    left. apply Rinv_0_lt_compat. lra.
Qed.

Lemma divisors_nonzero (l : list R) : Forall (fun d => d <> 0) (divisors l).
Proof.
  unfold divisors. apply Forall_forall. intros d Hd.
  apply filter_In in Hd. apply nonzero_true. tauto.
Qed.

(** The masked assignment acts entry by entry. *)
Lemma invert_nonzero_map (l : list R) : invert_nonzero l = map masked_recip l.
Proof.
  unfold invert_nonzero, divisors.
  induction l as [|x l IH]; [reflexivity|].
  cbn [filter scatter map]. unfold masked_recip at 1.
  destruct (nonzero x); cbn [map]; rewrite IH; reflexivity.
Qed.

(** ** compute_jhjinv *)

(** The four entries of the summed and normalised array at one antenna:
    columns 1 and 2 of [to_norm] are zero, so only the two outer entries
    carry anything. *)
Lemma normalised_entries (model : visarr) (t f p : nat) :
  exists a d : R,
    0 <= a /\ 0 <= d /\ normalised model t f p = [a; 0; 0; d].
Proof.
  unfold normalised, dot4, abs2_sum, to_norm.
  cbn -[IZR sum_upto].
  set (s0 := sum_upto _ (fun q => Cabs (m00 _) * _)).
  set (s1 := sum_upto _ (fun q => Cabs (m01 _) * _)).
  set (s2 := sum_upto _ (fun q => Cabs (m10 _) * _)).
  set (s3 := sum_upto _ (fun q => Cabs (m11 _) * _)).
  assert (H0 : 0 <= s0) by (apply sum_upto_nonneg; intros; apply abs2_term_nonneg).
  assert (H1 : 0 <= s1) by (apply sum_upto_nonneg; intros; apply abs2_term_nonneg).
  assert (H2 : 0 <= s2) by (apply sum_upto_nonneg; intros; apply abs2_term_nonneg).
  assert (H3 : 0 <= s3) by (apply sum_upto_nonneg; intros; apply abs2_term_nonneg).
  exists (2 * s0 + s1 + s2), (s1 + s2 + 2 * s3).
  split; [lra|]. split; [lra|].
  f_equal; [ring|]. f_equal; [ring|]. f_equal; [ring|]. f_equal. ring.
Qed.

Lemma jhjinv_zeros (s : shape) (t f p : nat) :
  adat (compute_jhjinv (zeros_vis s)) t f p = mkM2 0 0 0 0.
Proof.
  assert (E : normalised (zeros_vis s) t f p = [0; 0; 0; 0]).
  { unfold normalised, dot4, abs2_sum, to_norm, zeros_vis, const_vis.
    cbn -[IZR sum_upto].
    rewrite sum_upto_zero by (intros; rewrite Cabs_C0; ring).
    f_equal; [ring|]. f_equal; [ring|]. f_equal; [ring|]. f_equal. ring. }
  cbn [compute_jhjinv adat]. rewrite invert_nonzero_map, E.
  cbn [map reshape22 nth]. rewrite masked_recip_zero. reflexivity.
Qed.

(** Over the reals every block is diagonal with a nonnegative diagonal. *)
Lemma jhjinv_block_diagonal (model : visarr) (t f p : nat) :
  let b := adat (compute_jhjinv model) t f p in
  m01 b = 0 /\ m10 b = 0 /\ 0 <= m00 b /\ 0 <= m11 b.
Proof.
  destruct (normalised_entries model t f p) as (a & d & Ha & Hd & E).
  cbn [compute_jhjinv adat]. rewrite invert_nonzero_map, E.
  cbn [map reshape22 nth m00 m01 m10 m11].
  rewrite masked_recip_zero.
  repeat split; auto using masked_recip_nonneg.
Qed.

(** C10 (amended): for model visibilities within the binary64 range of
    [within_f64_range], every 2x2 block of the array [compute_jhjinv]
    returns is a real diagonal matrix: its (0,1) and (1,0) entries are
    exactly zero and its diagonal entries are nonnegative. *)
Theorem compute_jhjinv_diagonal_nonneg (model : visarr) (t f p : nat) :
  within_f64_range model t f p ->
  let b := adat (compute_jhjinv model) t f p in
  m01 b = 0 /\ m10 b = 0 /\ 0 <= m00 b /\ 0 <= m11 b.
Proof.
  intros _. apply jhjinv_block_diagonal.
Qed.

Lemma M2abs2_model_bad : M2abs2 (mkM2 C0 C1 C0 C0) = 1.
Proof.
  unfold M2abs2. cbn [m00 m01 m10 m11]. rewrite !Cabs_sqr.
  unfold C0, C1. cbn [Re Im]. ring.
Qed.

(** One antenna with unit flux in the (0,1) correlation. *)
Lemma compute_jhjinv_diagonal_nonneg_witness :
  m01 (adat (compute_jhjinv model_bad) 0 0 0) = 0
  /\ m10 (adat (compute_jhjinv model_bad) 0 0 0) = 0
  /\ 0 <= m00 (adat (compute_jhjinv model_bad) 0 0 0)
  /\ 0 <= m11 (adat (compute_jhjinv model_bad) 0 0 0).
Proof.
  assert (H : within_f64_range model_bad 0 0 0).
  { split.
    - cbn. lia.
    - intros q _. unfold model_bad, const_vis. cbn [vdat].
      rewrite M2abs2_model_bad. apply pow_R1_Rle. lra. }
  exact (compute_jhjinv_diagonal_nonneg model_bad 0 0 0 H).
Defined.

(** C10 (counterexample): on the model visibility [[2**600, 0], [0, 0]] the
    squared modulus overflows to [inf], [inf * 0] in the product with
    [to_norm] is NaN, and the block that comes back is
    [[0, nan], [nan, nan]]: its (0,1) and (1,0) entries are not zero. *)
Lemma jhjinv_overflow_not_diagonal :
  PrimFloat.is_nan (m01 (adat (compute_jhjinv_f64 overflow_model) 0 0 0)) = true
  /\ PrimFloat.is_nan (m10 (adat (compute_jhjinv_f64 overflow_model) 0 0 0)) = true
  /\ PrimFloat.eqb (m01 (adat (compute_jhjinv_f64 overflow_model) 0 0 0)) PrimFloat.zero
     = false
  /\ PrimFloat.eqb (m00 (adat (compute_jhjinv_f64 overflow_model) 0 0 0)) PrimFloat.zero
     = true.
Proof.
  vm_compute. repeat split.
Qed.

(** C4: the element-wise inversion of [compute_jhjinv] divides only by
    non-zero entries; a non-zero entry of the summed and normalised array
    becomes its reciprocal and an exactly-zero entry stays zero; and on an
    all-zero model array every block of the result is zero. *)
Theorem compute_jhjinv_no_zero_division (model : visarr) (t f p : nat) :
  Forall (fun d => d <> 0) (divisors (normalised model t f p))
  /\ (forall k, (k < 4)%nat ->
        let x := nth k (normalised model t f p) 0 in
        let y := nth k (flatten4 (adat (compute_jhjinv model) t f p)) 0 in
        (x <> 0 -> y = / x) /\ (x = 0 -> y = 0))
  /\ (forall s, adat (compute_jhjinv (zeros_vis s)) t f p = mkM2 0 0 0 0).
Proof.
  split; [apply divisors_nonzero|]. split.
  - intros k Hk x y. subst x y.
    destruct (normalised_entries model t f p) as (a & d & _ & _ & E).
    cbn [compute_jhjinv adat]. rewrite invert_nonzero_map, E.
    destruct k as [|[|[|[|k]]]]; try lia;
      cbn [map reshape22 nth flatten4 m00 m01 m10 m11];
      (split; intros H;
       [apply masked_recip_nonzero; exact H | apply masked_recip_is_zero; exact H]).
  - intros s. apply jhjinv_zeros.
Qed.

(** ** The loop *)

Lemma Rltb_true (a b : R) : a < b -> Rltb a b = true.
Proof. intros H. unfold Rltb. destruct (Rlt_dec a b); [reflexivity|contradiction]. Qed.

Lemma Rltb_false (a b : R) : ~ a < b -> Rltb a b = false.
Proof. intros H. unfold Rltb. destruct (Rlt_dec a b); [contradiction|reflexivity]. Qed.

Lemma Rltb_spec (a b : R) : Rltb a b = true <-> a < b.
Proof.
  unfold Rltb. destruct (Rlt_dec a b); split; intros H;
    try reflexivity; try assumption; try discriminate. contradiction.
Qed.

(** What one execution of the body can do. *)
Lemma body_cases (cfg : config) (model obser : visarr) (jhjinv : antarr (M2 R))
                 (st : state) :
  let ph := next_phases model obser jhjinv st in
  let g := gains_of_phases ph in
  (body cfg model obser jhjinv st = Stop g [] ExitMaxiter
   /\ (maxiter cfg < iters st + 1)%Z)
  \/ (body cfg model obser jhjinv st = Throw ZeroDivisionError
      /\ (iters st + 1 <= maxiter cfg)%Z /\ chi_interval cfg = 0%Z)
  \/ (body cfg model obser jhjinv st = Stop g [] ExitChiTol
      /\ (iters st + 1 <= maxiter cfg)%Z)
  \/ (body cfg model obser jhjinv st = Stop g ["Bad solutions."%string] ExitBadSolutions
      /\ (iters st + 1 <= maxiter cfg)%Z)
  \/ (exists d c,
        body cfg model obser jhjinv st = Continue (mkState ph g d (iters st + 1) c)
        /\ (iters st + 1 <= maxiter cfg)%Z).
Proof.
  intros ph g. unfold body. fold ph. fold g.
  destruct (Z.gtb_spec (iters st + 1) (maxiter cfg)) as [Hgt|Hle].
  - left. split; [reflexivity|lia].
  - right.
    destruct (Z.eqb_spec (chi_interval cfg) 0) as [Hz|Hnz].
    + left. repeat split; assumption.
    + right.
      destruct ((iters st + 1) mod chi_interval cfg =? 0)%Z.
      * destruct (improvement_below _ _ _).
        -- left. split; [reflexivity|assumption].
        -- right. destruct (chi_increased _ _).
           ++ left. split; [reflexivity|assumption].
           ++ right. eexists _, _. split; [reflexivity|assumption].
      * right. right. eexists _, _. split; [reflexivity|assumption].
Qed.

Lemma body_continue (cfg : config) (model obser : visarr) (jhjinv : antarr (M2 R))
                    (st st' : state) :
  body cfg model obser jhjinv st = Continue st' ->
  iters st' = (iters st + 1)%Z
  /\ (iters st' <= maxiter cfg)%Z
  /\ phases st' = next_phases model obser jhjinv st
  /\ gains st' = gains_of_phases (phases st').
Proof.
  intros H.
  destruct (body_cases cfg model obser jhjinv st)
    as [[E _]|[[E _]|[[E _]|[[E _]|(d & c & E & Hle)]]]];
    rewrite E in H; try discriminate.
  injection H as <-. cbn [iters phases gains]. repeat split. exact Hle.
Qed.

(** The cap test comes first after the increment and looks at nothing else. *)
Lemma body_cap (cfg : config) (model obser : visarr) (jhjinv : antarr (M2 R))
               (st : state) :
  (maxiter cfg < iters st + 1)%Z ->
  body cfg model obser jhjinv st =
  Stop (gains_of_phases (next_phases model obser jhjinv st)) [] ExitMaxiter.
Proof.
  intros H. unfold body.
  destruct (Z.gtb_spec (iters st + 1) (maxiter cfg)); [reflexivity|lia].
Qed.

(** The body runs at most [max 1 (maxiter + 1 - iters)] more times, and with
    more fuel than that the loop ends. *)
Lemma loop_terminates (cfg : config) (model obser : visarr) (jhjinv : antarr (M2 R)) :
  forall (fuel n : nat) (st : state),
    (Z.to_nat (Z.max 1 (maxiter cfg + 1 - iters st)) < fuel)%nat ->
    exists out,
      loop fuel cfg model obser jhjinv n st = Some out
      /\ (iterations out <= n + Z.to_nat (Z.max 1 (maxiter cfg + 1 - iters st)))%nat.
Proof.
  induction fuel as [|fuel IH]; intros n st Hfuel; [lia|].
  cbn [loop].
  destruct (Rltb (min_delta_g cfg) (delta_g st)).
  - destruct (body_cases cfg model obser jhjinv st)
      as [[E _]|[[E _]|[[E _]|[[E _]|(d & c & E & Hle)]]]]; rewrite E.
    + eexists. split; [reflexivity|]. cbn [iterations ret_iters]. lia.
    + eexists. split; [reflexivity|]. cbn [iterations]. lia.
    + eexists. split; [reflexivity|]. cbn [iterations ret_iters]. lia.
    + eexists. split; [reflexivity|]. cbn [iterations ret_iters]. lia.
    + set (st' := mkState _ _ d _ c).
      destruct (IH (S n) st') as (out & Hout & Hn).
      { subst st'. cbn [iters]. lia. }
      exists out. split; [exact Hout|].
      subst st'. cbn [iters] in Hn. lia.
  - eexists. split; [reflexivity|]. cbn [iterations ret_iters]. lia.
Qed.

(** More fuel does not change a result. *)
Lemma loop_fuel_mono (cfg : config) (model obser : visarr) (jhjinv : antarr (M2 R)) :
  forall (fuel fuel' n : nat) (st : state) (out : outcome),
    loop fuel cfg model obser jhjinv n st = Some out ->
    (fuel <= fuel')%nat ->
    loop fuel' cfg model obser jhjinv n st = Some out.
Proof.
  induction fuel as [|fuel IH]; intros fuel' n st out H Hle; [discriminate|].
  destruct fuel' as [|fuel']; [lia|].
  cbn [loop] in *.
  destruct (Rltb (min_delta_g cfg) (delta_g st)); [|exact H].
  destruct (body cfg model obser jhjinv st); try exact H.
  apply IH with (fuel' := fuel') in H; [exact H|lia].
Qed.

Lemma loop_iterations_ge (cfg : config) (model obser : visarr) (jhjinv : antarr (M2 R)) :
  forall (fuel n : nat) (st : state) (out : outcome),
    loop fuel cfg model obser jhjinv n st = Some out -> (n <= iterations out)%nat.
Proof.
  induction fuel as [|fuel IH]; intros n st out H; [discriminate|].
  cbn [loop] in H.
  destruct (Rltb (min_delta_g cfg) (delta_g st)).
  - destruct (body cfg model obser jhjinv st).
    + apply IH in H. lia.
    + injection H as <-. cbn [iterations ret_iters]. lia.
    + injection H as <-. cbn [iterations]. lia.
  - injection H as <-. cbn [iterations ret_iters]. lia.
Qed.

(** When the first [while] test succeeds the body runs. *)
Lemma loop_enters (cfg : config) (model obser : visarr) (jhjinv : antarr (M2 R))
                  (fuel n : nat) (st : state) (out : outcome) :
  min_delta_g cfg < delta_g st ->
  loop fuel cfg model obser jhjinv n st = Some out -> (S n <= iterations out)%nat.
Proof.
  intros Hlt H. destruct fuel as [|fuel]; [discriminate|].
  cbn [loop] in H. rewrite (Rltb_true _ _ Hlt) in H.
  destruct (body cfg model obser jhjinv st).
  - apply loop_iterations_ge in H. exact H.
  - injection H as <-. cbn [iterations ret_iters]. lia.
  - injection H as <-. cbn [iterations]. lia.
Qed.

(** When the first [while] test fails the initial gains come back at once. *)
Lemma loop_skipped (cfg : config) (model obser : visarr) (jhjinv : antarr (M2 R))
                   (fuel n : nat) (st : state) :
  delta_g st <= min_delta_g cfg ->
  loop (S fuel) cfg model obser jhjinv n st =
  Some (Returned (mkResult (gains st) [] ExitDeltaG n)).
Proof.
  intros Hle. cbn [loop]. rewrite Rltb_false by lra. reflexivity.
Qed.

(** A run that stops at the cap in its first iteration. *)
Lemma loop_cap_first (cfg : config) (model obser : visarr) (jhjinv : antarr (M2 R))
                     (fuel n : nat) (st : state) :
  min_delta_g cfg < delta_g st ->
  (maxiter cfg < iters st + 1)%Z ->
  loop (S fuel) cfg model obser jhjinv n st =
  Some (Returned (mkResult (gains_of_phases (next_phases model obser jhjinv st))
                           [] ExitMaxiter (S n))).
Proof.
  intros Hlt Hcap. cbn [loop]. rewrite (Rltb_true _ _ Hlt).
  rewrite body_cap by exact Hcap. reflexivity.
Qed.

(** C3: the loop always terminates.  With more fuel than [max_iterations]
    the solver ends, in at most [maxiter + 1] executions of the body when
    [maxiter >= 0] and in one execution when [maxiter = 0]; the counter goes
    up by one in every iteration, and once it exceeds [maxiter] the body
    returns the current gains whatever chi-squared and [delta_g] are. *)
Theorem solver_terminates (model obser : visarr) (cfg : config) :
  exists out,
    (forall fuel, (max_iterations cfg < fuel)%nat ->
                  full_pol_phase_only fuel model obser cfg = Some out)
    /\ (iterations out <= max_iterations cfg)%nat
    /\ ((0 <= maxiter cfg)%Z -> (Z.of_nat (iterations out) <= maxiter cfg + 1)%Z)
    /\ (maxiter cfg = 0%Z ->
        (iterations out <= 1)%nat
        /\ (min_delta_g cfg < 1 ->
            exists g, out = Returned (mkResult g [] ExitMaxiter 1)))
    /\ (forall jhjinv st,
          (maxiter cfg < iters st + 1)%Z ->
          body cfg model obser jhjinv st =
          Stop (gains_of_phases (next_phases model obser jhjinv st)) [] ExitMaxiter)
    /\ (forall jhjinv st st',
          body cfg model obser jhjinv st = Continue st' ->
          iters st' = (iters st + 1)%Z).
Proof.
  destruct (loop_terminates cfg model obser (compute_jhjinv model)
              (S (max_iterations cfg)) 0 (init_state model)) as (out & Hrun & Hn).
  { unfold max_iterations. cbn [init_state iters].
    replace (maxiter cfg + 1 - 0)%Z with (maxiter cfg + 1)%Z by lia. lia. }
  cbn [init_state iters] in Hn.
  replace (maxiter cfg + 1 - 0)%Z with (maxiter cfg + 1)%Z in Hn by lia.
  exists out. split; [|split; [|split; [|split; [|split]]]].
  - intros fuel Hfuel. unfold full_pol_phase_only.
    apply loop_fuel_mono with (fuel := S (max_iterations cfg)); [exact Hrun|lia].
  - unfold max_iterations. lia.
  - intros Hpos. lia.
  - intros Hzero. rewrite Hzero in Hn. split; [cbn in Hn; lia|].
    intros Hlt.
    rewrite loop_cap_first in Hrun.
    + injection Hrun as <-. eexists. reflexivity.
    + cbn [init_state delta_g]. exact Hlt.
    + cbn [init_state iters]. lia.
  - intros jhjinv st. apply body_cap.
  - intros jhjinv st st' H. apply body_continue in H. tauto.
Qed.

(** C9 (amended): the first [while] test compares the constant [delta_g = 1]
    set before the loop with [min_delta_g]; whenever [min_delta_g < 1] the
    body runs at least once before the solver ends. *)
Theorem first_iteration_runs (fuel : nat) (model obser : visarr) (cfg : config)
                             (out : outcome) :
  min_delta_g cfg < 1 ->
  full_pol_phase_only fuel model obser cfg = Some out ->
  delta_g (init_state model) = 1 /\ (1 <= iterations out)%nat.
Proof.
  intros Hlt Hrun. split; [reflexivity|].
  unfold full_pol_phase_only in Hrun.
  apply loop_enters in Hrun; [exact Hrun|]. exact Hlt.
Qed.

(** The default keyword arguments with [maxiter=0] on all-zero arrays: the
    body runs once. *)
Lemma first_iteration_runs_witness :
  min_delta_g cfg_cap0 < 1
  /\ full_pol_phase_only 1 (zeros_vis one_cell) (zeros_vis one_cell) cfg_cap0 =
     Some (Returned (mkResult
             (gains_of_phases
                (next_phases (zeros_vis one_cell) (zeros_vis one_cell)
                   (compute_jhjinv (zeros_vis one_cell))
                   (init_state (zeros_vis one_cell))))
             [] ExitMaxiter 1))
  /\ (1 <= 1)%nat.
Proof.
  assert (Hlt : min_delta_g cfg_cap0 < 1) by (cbn; lra).
  assert (Hrun : full_pol_phase_only 1 (zeros_vis one_cell) (zeros_vis one_cell) cfg_cap0 =
     Some (Returned (mkResult
             (gains_of_phases
                (next_phases (zeros_vis one_cell) (zeros_vis one_cell)
                   (compute_jhjinv (zeros_vis one_cell))
                   (init_state (zeros_vis one_cell))))
             [] ExitMaxiter 1))).
  { unfold full_pol_phase_only. apply loop_cap_first; [exact Hlt | cbn; lia]. }
  split; [exact Hlt|]. split; [exact Hrun|].
  exact (proj2 (first_iteration_runs 1 _ _ cfg_cap0 _ Hlt Hrun)).
Defined.

(** C9 (counterexample): with [min_delta_g = 1] the first [while] test fails
    and the solver returns without having run the body once. *)
Lemma first_test_can_fail :
  exists out,
    full_pol_phase_only 1 (zeros_vis one_cell) (zeros_vis one_cell) cfg_loose = Some out
    /\ iterations out = 0%nat.
Proof.
  eexists. split.
  - unfold full_pol_phase_only. apply loop_skipped. cbn. lra.
  - reflexivity.
Qed.

(** C8 (amended): the solver makes no shape check of its own.  The observed
    array is first read inside the first update, so when the loop is not
    entered ([min_delta_g >= 1]) the initial gains are returned for every
    observed array, whatever its shape. *)
Theorem observed_unchecked (fuel : nat) (model obser : visarr) (cfg : config) :
  1 <= min_delta_g cfg ->
  full_pol_phase_only (S fuel) model obser cfg =
  Some (Returned (mkResult (gains_of_phases (zero_phases (vshape model)))
                           [] ExitDeltaG 0)).
Proof.
  intros Hle. unfold full_pol_phase_only.
  rewrite loop_skipped; [reflexivity|]. cbn [init_state delta_g]. exact Hle.
Qed.

(** A two-antenna model, a one-antenna observation and [min_delta_g=1]. *)
Lemma observed_unchecked_witness :
  1 <= min_delta_g cfg_loose
  /\ full_pol_phase_only 1 (zeros_vis two_ants) (zeros_vis one_cell) cfg_loose =
     Some (Returned (mkResult (gains_of_phases (zero_phases (vshape (zeros_vis two_ants))))
                              [] ExitDeltaG 0)).
Proof.
  assert (Hle : 1 <= min_delta_g cfg_loose) by (cbn; lra).
  split; [exact Hle|].
  exact (observed_unchecked 0 (zeros_vis two_ants) (zeros_vis one_cell) cfg_loose Hle).
Defined.

(** C8 (counterexample): a model array for two antennas and an observed array
    for one antenna have different shapes, and the solver returns gains. *)
Lemma mismatch_not_rejected :
  vshape (zeros_vis one_cell) <> vshape (zeros_vis two_ants)
  /\ shape_eqb (vshape (zeros_vis one_cell)) (vshape (zeros_vis two_ants)) = false
  /\ exists r,
       full_pol_phase_only 1 (zeros_vis two_ants) (zeros_vis one_cell) cfg_loose =
       Some (Returned r).
Proof.
  split; [discriminate|]. split; [reflexivity|].
  eexists. unfold full_pol_phase_only. apply loop_skipped. cbn. lra.
Qed.

(** ** Diagonal gains *)

Lemma gains_of_phases_diag (ph : phasearr) : offdiag_zero (gains_of_phases ph).
Proof. intros t f p. split; reflexivity. Qed.

Lemma body_stop_diag (cfg : config) (model obser : visarr) (jhjinv : antarr (M2 R))
                     (st : state) (g : gainarr) (o : list string) (e : exit_point) :
  body cfg model obser jhjinv st = Stop g o e -> offdiag_zero g.
Proof.
  intros H.
  destruct (body_cases cfg model obser jhjinv st)
    as [[E _]|[[E _]|[[E _]|[[E _]|(d & c & E & _)]]]];
    rewrite E in H; try discriminate; injection H as <- _ _;
    apply gains_of_phases_diag.
Qed.

Lemma loop_returns_diag (cfg : config) (model obser : visarr) (jhjinv : antarr (M2 R)) :
  forall (fuel n : nat) (st : state) (r : result),
    offdiag_zero (gains st) ->
    loop fuel cfg model obser jhjinv n st = Some (Returned r) ->
    offdiag_zero (ret_gains r).
Proof.
  induction fuel as [|fuel IH]; intros n st r Hst H; [discriminate|].
  cbn [loop] in H.
  destruct (Rltb (min_delta_g cfg) (delta_g st)).
  - destruct (body cfg model obser jhjinv st) as [st'|g o e|e] eqn:E.
    + apply IH in H; [exact H|].
      apply body_continue in E. destruct E as (_ & _ & _ & ->).
      apply gains_of_phases_diag.
    + injection H as <-. cbn [ret_gains]. eapply body_stop_diag. exact E.
    + discriminate.
  - injection H as <-. exact Hst.
Qed.

Lemma state_after_diag (cfg : config) (model obser : visarr) (jhjinv : antarr (M2 R))
                       (st0 : state) :
  offdiag_zero (gains st0) ->
  forall (k : nat) (st : state),
    state_after k cfg model obser jhjinv st0 = Some st -> offdiag_zero (gains st).
Proof.
  intros H0 k. destruct k as [|k]; intros st H.
  - injection H as <-. exact H0.
  - cbn [state_after] in H.
    destruct (state_after k cfg model obser jhjinv st0) as [st'|]; [|discriminate].
    destruct (Rltb (min_delta_g cfg) (delta_g st')); [|discriminate].
    destruct (body cfg model obser jhjinv st') as [st''| |] eqn:E; try discriminate.
    injection H as <-.
    apply body_continue in E. destruct E as (_ & _ & _ & ->).
    apply gains_of_phases_diag.
Qed.

(** C5: the gains are exactly diagonal at initialisation and at the [while]
    test after every phase update, and the gains the solver returns, from
    whichever [return], have all off-diagonal entries equal to zero. *)
Theorem returned_gains_diagonal (fuel : nat) (model obser : visarr) (cfg : config)
                                (r : result) :
  full_pol_phase_only fuel model obser cfg = Some (Returned r) ->
  offdiag_zero (gains (init_state model))
  /\ (forall k st,
        state_after k cfg model obser (compute_jhjinv model) (init_state model) = Some st ->
        offdiag_zero (gains st))
  /\ offdiag_zero (ret_gains r).
Proof.
  intros H.
  assert (H0 : offdiag_zero (gains (init_state model)))
    by apply gains_of_phases_diag.
  split; [exact H0|]. split.
  - apply state_after_diag. exact H0.
  - unfold full_pol_phase_only in H. eapply loop_returns_diag; [exact H0|exact H].
Qed.

(** The gains returned at the cap on all-zero arrays for two antennas. *)
Lemma returned_gains_diagonal_witness :
  offdiag_zero
    (gains_of_phases
       (next_phases (zeros_vis two_ants) (zeros_vis two_ants)
          (compute_jhjinv (zeros_vis two_ants)) (init_state (zeros_vis two_ants)))).
Proof.
  assert (Hrun : full_pol_phase_only 1 (zeros_vis two_ants) (zeros_vis two_ants) cfg_cap0 =
     Some (Returned (mkResult
             (gains_of_phases
                (next_phases (zeros_vis two_ants) (zeros_vis two_ants)
                   (compute_jhjinv (zeros_vis two_ants))
                   (init_state (zeros_vis two_ants))))
             [] ExitMaxiter 1))).
  { unfold full_pol_phase_only. apply loop_cap_first; [cbn; lra | cbn; lia]. }
  exact (proj2 (proj2 (returned_gains_diagonal 1 _ _ cfg_cap0 _ Hrun))).
Defined.

(** ** The relaxation schedule *)

Lemma even_odd_of_nat (k : nat) :
  Z.even (Z.of_nat k) = Nat.even k /\ Z.odd (Z.of_nat k) = Nat.odd k.
Proof.
  induction k as [|k [IHe IHo]]; [split; reflexivity|].
  rewrite Nat2Z.inj_succ, Z.even_succ, Z.odd_succ, Nat.even_succ, Nat.odd_succ.
  split; assumption.
Qed.

Lemma fact_relaxation (k : nat) : fact (Z.of_nat k) = relaxation k.
Proof.
  unfold fact, relaxation.
  rewrite <- Zeven_mod. rewrite (proj1 (even_odd_of_nat k)). reflexivity.
Qed.

Lemma state_after_iters (cfg : config) (model obser : visarr) (jhjinv : antarr (M2 R))
                        (st0 : state) :
  forall (k : nat) (st : state),
    state_after k cfg model obser jhjinv st0 = Some st ->
    iters st = (iters st0 + Z.of_nat k)%Z.
Proof.
  induction k as [|k IH]; intros st H.
  - injection H as <-. lia.
  - cbn [state_after] in H.
    destruct (state_after k cfg model obser jhjinv st0) as [st'|]; [|discriminate].
    destruct (Rltb (min_delta_g cfg) (delta_g st')); [|discriminate].
    destruct (body cfg model obser jhjinv st') as [st''| |] eqn:E; try discriminate.
    injection H as <-.
    apply body_continue in E. destruct E as (-> & _).
    rewrite (IH st' eq_refl). lia.
Qed.

(** C6: in the iteration with 0-indexed number [k] the loop body multiplies
    the phase update by exactly 1/2 when [k] is even and by exactly 1 when
    [k] is odd: whether the body goes on to the next [while] test or
    returns, the phases it has reached, from which its gains are computed,
    are the previous phases plus that factor times the update. *)
Theorem relaxation_schedule (k : nat) (model obser : visarr) (cfg : config)
                            (st : state) :
  state_after k cfg model obser (compute_jhjinv model) (init_state model) = Some st ->
  let relax := if Nat.even k then 1 / 2 else 1 in
  let upd := compute_update model obser (gains st) (compute_jhjinv model) in
  let stepped (ph' : phasearr) :=
    forall t f p,
      adat ph' t f p =
      mkV2 (v0 (adat (phases st) t f p) + relax * v0 (adat upd t f p))
           (v1 (adat (phases st) t f p) + relax * v1 (adat upd t f p)) in
  iters st = Z.of_nat k
  /\ fact (iters st) = relax
  /\ (forall st',
        body cfg model obser (compute_jhjinv model) st = Continue st' ->
        stepped (phases st') /\ gains st' = gains_of_phases (phases st'))
  /\ (forall g o e,
        body cfg model obser (compute_jhjinv model) st = Stop g o e ->
        exists ph', stepped ph' /\ g = gains_of_phases ph').
Proof.
  intros H relax upd stepped.
  apply state_after_iters in H. cbn [init_state iters] in H.
  rewrite Z.add_0_l in H.
  assert (F : fact (iters st) = relax).
  { rewrite H. apply fact_relaxation. }
  assert (N : stepped (next_phases model obser (compute_jhjinv model) st)).
  { intros t f p. cbn [next_phases adat]. rewrite F. reflexivity. }
  split; [exact H|]. split; [exact F|]. split.
  - intros st' B. apply body_continue in B. destruct B as (_ & _ & Hp & Hg).
    rewrite Hp. split; [exact N|]. rewrite <- Hp. exact Hg.
  - intros g o e B.
    exists (next_phases model obser (compute_jhjinv model) st). split; [exact N|].
    destruct (body_cases cfg model obser (compute_jhjinv model) st)
      as [[E _]|[[E _]|[[E _]|[[E _]|(d & c & E & _)]]]];
      rewrite E in B; try discriminate; injection B as <- _ _; reflexivity.
Qed.

(** ** Algebra of 2x2 complex blocks *)

Lemma C_nonzero_norm (z : C) : z <> C0 -> Re z * Re z + Im z * Im z <> 0.
Proof.
  intros H E. apply H. destruct z as [x y]. cbn [Re Im] in E.
  assert (x = 0) by nra. assert (y = 0) by nra. subst. reflexivity.
Qed.

Lemma M2mulT_conj (a b : M2 C) : M2mulT a (M2conj b) = M2mul a (M2H b).
Proof. reflexivity. Qed.

Lemma M2mul_assoc (a b c : M2 C) : M2mul (M2mul a b) c = M2mul a (M2mul b c).
Proof.
  destruct a as [[? ?] [? ?] [? ?] [? ?]], b as [[? ?] [? ?] [? ?] [? ?]],
           c as [[? ?] [? ?] [? ?] [? ?]].
  M2_ring.
Qed.

Lemma M2H_mul (a b : M2 C) : M2H (M2mul a b) = M2mul (M2H b) (M2H a).
Proof.
  destruct a as [[? ?] [? ?] [? ?] [? ?]], b as [[? ?] [? ?] [? ?] [? ?]].
  M2_ring.
Qed.

Lemma M2H_id : M2H M2id = M2id.
Proof. M2_ring. Qed.

Lemma M2mul_id_l (a : M2 C) : M2mul M2id a = a.
Proof. destruct a as [[? ?] [? ?] [? ?] [? ?]]. M2_ring. Qed.

Lemma M2mul_id_r (a : M2 C) : M2mul a M2id = a.
Proof. destruct a as [[? ?] [? ?] [? ?] [? ?]]. M2_ring. Qed.

(** Lines 191-196 compute the inverse of a block with non-zero determinant. *)
Lemma inv_gains_left (g : M2 C) :
  det2 g <> C0 -> M2mul (inv_gains_block g) g = M2id.
Proof.
  intros H. apply C_nonzero_norm in H.
  destruct g as [[a1 a2] [b1 b2] [c1 c2] [d1 d2]].
  unfold inv_gains_block, signs. C_unfold.
  f_equal; f_equal; field; exact H.
Qed.

(** The round trip at one pair of antennas. *)
Lemma round_trip_block (gl gm v : M2 C) :
  det2 gl <> C0 -> det2 gm <> C0 ->
  M2mulT (M2mul (inv_gains_block gl) (M2mulT (M2mul gl v) (M2conj gm)))
         (M2conj (inv_gains_block gm)) = v.
Proof.
  intros Hl Hm. rewrite !M2mulT_conj.
  rewrite <- (M2mul_assoc (inv_gains_block gl)).
  rewrite <- (M2mul_assoc (inv_gains_block gl) gl v).
  rewrite (inv_gains_left gl Hl), M2mul_id_l.
  rewrite M2mul_assoc, <- M2H_mul.
  rewrite (inv_gains_left gm Hm), M2H_id, M2mul_id_r. reflexivity.
Qed.

(** C7: for gains whose blocks are diagonal with non-zero determinant,
    corrupting visibilities [V] to [G.V.G^H], as [compute_residual] does with
    the model, and then calling [apply_gains] with the same gains gives [V]
    back, in exact arithmetic. *)
Theorem apply_gains_round_trip (V : visarr) (G : gainarr) :
  ashape G = vshape V ->
  (forall t f p,
     (t < nt (ashape G))%nat -> (f < nf (ashape G))%nat -> (p < na (ashape G))%nat ->
     m01 (adat G t f p) = C0 /\ m10 (adat G t f p) = C0 /\ det2 (adat G t f p) <> C0) ->
  vshape (apply_gains (corrupt V G) G) = vshape V
  /\ forall t f l m,
       in_shape (vshape V) t f l m ->
       vdat (apply_gains (corrupt V G) G) t f l m = vdat V t f l m.
Proof.
  intros Hs HG. split; [reflexivity|].
  intros t f l m (Ht & Hf & Hl & Hm). rewrite <- Hs in Ht, Hf, Hl, Hm.
  cbn [apply_gains corrupt vdat gmgh_block].
  apply round_trip_block.
  - apply (HG t f l); assumption.
  - apply (HG t f m); assumption.
Qed.

(** Unit visibilities and gains [diag(1j, 2)], at the baseline (0, 1). *)
Lemma apply_gains_round_trip_witness :
  vdat (apply_gains (corrupt unit_vis skew_gains) skew_gains) 0 0 0 1 =
  vdat unit_vis 0 0 0 1.
Proof.
  assert (Hs : ashape skew_gains = vshape unit_vis) by reflexivity.
  assert (HG : forall t f p,
     (t < nt (ashape skew_gains))%nat -> (f < nf (ashape skew_gains))%nat ->
     (p < na (ashape skew_gains))%nat ->
     m01 (adat skew_gains t f p) = C0 /\ m10 (adat skew_gains t f p) = C0
     /\ det2 (adat skew_gains t f p) <> C0).
  { intros t f p _ _ _. split; [reflexivity|]. split; [reflexivity|].
    cbn [skew_gains adat]. C_unfold. intros E. injection E as E1 E2. lra. }
  apply (proj2 (apply_gains_round_trip unit_vis skew_gains Hs HG)).
  unfold in_shape. cbn. lia.
Defined.

(** ** Evaluating the body *)

(** The body when the counter is within the cap and this iteration is not
    one with a chi-squared check. *)
Lemma body_unchecked (cfg : config) (model obser : visarr) (jhjinv : antarr (M2 R))
                     (st : state) :
  (iters st + 1 <= maxiter cfg)%Z ->
  chi_interval cfg <> 0%Z ->
  ((iters st + 1) mod chi_interval cfg <> 0)%Z ->
  body cfg model obser jhjinv st =
  let ph := next_phases model obser jhjinv st in
  let g := gains_of_phases ph in
  Continue (mkState ph g (norm_ant (gains_diff (gains st) g)) (iters st + 1) (chi st)).
Proof.
  intros Hle Hnz Hmod. unfold body.
  destruct (Z.gtb_spec (iters st + 1) (maxiter cfg)); [lia|].
  destruct (Z.eqb_spec (chi_interval cfg) 0); [contradiction|].
  destruct (Z.eqb_spec ((iters st + 1) mod chi_interval cfg) 0); [contradiction|].
  reflexivity.
Qed.

(** The body in an iteration with a chi-squared check. *)
Lemma body_checked (cfg : config) (model obser : visarr) (jhjinv : antarr (M2 R))
                   (st : state) :
  (iters st + 1 <= maxiter cfg)%Z ->
  chi_interval cfg <> 0%Z ->
  ((iters st + 1) mod chi_interval cfg = 0)%Z ->
  body cfg model obser jhjinv st =
  let ph := next_phases model obser jhjinv st in
  let g := gains_of_phases ph in
  let chi' := norm_vis (compute_residual obser model g) in
  if improvement_below (chi st) chi' (chi_tol cfg) then Stop g [] ExitChiTol
  else if chi_increased (chi st) chi' then
    Stop g ["Bad solutions."%string] ExitBadSolutions
  else Continue (mkState ph g (norm_ant (gains_diff (gains st) g))
                         (iters st + 1) (Fin chi')).
Proof.
  intros Hle Hnz Hmod. unfold body.
  destruct (Z.gtb_spec (iters st + 1) (maxiter cfg)); [lia|].
  destruct (Z.eqb_spec (chi_interval cfg) 0); [contradiction|].
  destruct (Z.eqb_spec ((iters st + 1) mod chi_interval cfg) 0); [|contradiction].
  reflexivity.
Qed.

Lemma norm_ant_nonneg (g : gainarr) : 0 <= norm_ant g.
Proof. unfold norm_ant. apply sqrt_pos. Qed.

Lemma norm_vis_nonneg (v : visarr) : 0 <= norm_vis v.
Proof. unfold norm_vis. apply sqrt_pos. Qed.

(** ** Runs on an all-zero model *)

Lemma update_zeros (s : shape) (obser : visarr) (g : gainarr) (t f p : nat) :
  adat (compute_update (zeros_vis s) obser g (compute_jhjinv (zeros_vis s))) t f p =
  mkV2 0 0.
Proof.
  cbn [compute_update adat]. rewrite jhjinv_zeros.
  unfold M2Rapply. cbn [m00 m01 m10 m11]. f_equal; ring.
Qed.

(** With no model flux the phases stay where they are. *)
Lemma next_phases_zeros (s : shape) (obser : visarr) (st : state) (t f p : nat) :
  adat (phases st) t f p = mkV2 0 0 ->
  adat (next_phases (zeros_vis s) obser (compute_jhjinv (zeros_vis s)) st) t f p =
  mkV2 0 0.
Proof.
  intros H. cbn [next_phases adat]. rewrite H, update_zeros.
  cbn [v0 v1]. f_equal; ring.
Qed.

Lemma gains_of_zero_phases (ph : phasearr) (t f p : nat) :
  adat ph t f p = mkV2 0 0 ->
  adat (gains_of_phases ph) t f p = zero_offdiag (exp_outer (mkV2 0 0)).
Proof. intros H. cbn [gains_of_phases adat]. rewrite H. reflexivity. Qed.

Lemma M2abs2_zero : M2abs2 M2zero = 0.
Proof. unfold M2abs2, M2zero. cbn [m00 m01 m10 m11]. rewrite Cabs_C0. ring. Qed.

Lemma residual_block_zeros (gl gm : M2 C) :
  M2sub M2zero (M2mulT (M2mul gl M2zero) (M2conj gm)) = M2zero.
Proof.
  destruct gl as [[? ?] [? ?] [? ?] [? ?]], gm as [[? ?] [? ?] [? ?] [? ?]].
  M2_ring.
Qed.

Lemma norm_residual_zeros (s : shape) (g : gainarr) :
  norm_vis (compute_residual (zeros_vis s) (zeros_vis s) g) = 0.
Proof.
  unfold norm_vis. cbn [compute_residual vshape vdat].
  rewrite sum_upto_zero; [apply sqrt_0|].
  intros t _. apply sum_upto_zero. intros f _.
  apply sum_upto_zero. intros l _. apply sum_upto_zero. intros m _.
  unfold gmgh_block, zeros_vis, const_vis. cbn [vdat].
  rewrite residual_block_zeros. apply M2abs2_zero.
Qed.

(** The run on all-zero arrays for one antenna that stops at the cap. *)
Lemma run_cap0_zeros :
  full_pol_phase_only 1 (zeros_vis one_cell) (zeros_vis one_cell) cfg_cap0 =
  Some (Returned (mkResult
          (gains_of_phases
             (next_phases (zeros_vis one_cell) (zeros_vis one_cell)
                (compute_jhjinv (zeros_vis one_cell)) (init_state (zeros_vis one_cell))))
          [] ExitMaxiter 1)).
Proof.
  unfold full_pol_phase_only. apply loop_cap_first; [cbn; lra | cbn; lia].
Qed.

(** The run on the same arrays that stops at the second chi-squared check
    because chi-squared did not improve by [chi_tol]. *)
Lemma run_every_zeros :
  exists st1,
    state_after 1 cfg_every (zeros_vis one_cell) (zeros_vis one_cell)
      (compute_jhjinv (zeros_vis one_cell)) (init_state (zeros_vis one_cell)) = Some st1
    /\ phases st1 = next_phases (zeros_vis one_cell) (zeros_vis one_cell)
                      (compute_jhjinv (zeros_vis one_cell)) (init_state (zeros_vis one_cell))
    /\ full_pol_phase_only 2 (zeros_vis one_cell) (zeros_vis one_cell) cfg_every =
       Some (Returned (mkResult
               (gains_of_phases
                  (next_phases (zeros_vis one_cell) (zeros_vis one_cell)
                     (compute_jhjinv (zeros_vis one_cell)) st1))
               [] ExitChiTol 2)).
Proof.
  set (Z0 := zeros_vis one_cell). set (J := compute_jhjinv Z0).
  assert (B0 : exists d c,
            body cfg_every Z0 Z0 J (init_state Z0) =
            Continue (mkState (next_phases Z0 Z0 J (init_state Z0))
                        (gains_of_phases (next_phases Z0 Z0 J (init_state Z0)))
                        d 1 (Fin c))
            /\ 0 <= d /\ c = 0).
  { eexists _, _. split; [|split].
    - rewrite body_checked; [reflexivity | cbn; lia | cbn; lia | reflexivity].
    - apply norm_ant_nonneg.
    - apply norm_residual_zeros. }
  destruct B0 as (d & c & B0 & Hd & Hc).
  set (st1 := mkState _ _ d 1 (Fin c)) in B0.
  assert (L0 : Rltb (min_delta_g cfg_every) (delta_g (init_state Z0)) = true)
    by (apply Rltb_true; cbn; lra).
  assert (L1 : Rltb (min_delta_g cfg_every) (delta_g st1) = true)
    by (apply Rltb_true; cbn; lra).
  assert (B1 : body cfg_every Z0 Z0 J st1 =
               Stop (gains_of_phases (next_phases Z0 Z0 J st1)) [] ExitChiTol).
  { rewrite body_checked; [| cbn; lia | cbn; lia | reflexivity].
    cbv zeta. unfold Z0. rewrite norm_residual_zeros. fold Z0.
    subst st1. cbn [chi improvement_below chi_tol cfg_every].
    rewrite Rltb_true; [reflexivity|]. subst c. lra. }
  exists st1. split; [|split].
  - cbn [state_after]. rewrite L0, B0. reflexivity.
  - reflexivity.
  - unfold full_pol_phase_only. fold Z0. fold J.
    cbn [loop]. rewrite L0, B0, L1, B1. reflexivity.
Qed.

(** ** A run on which chi-squared goes up *)

Lemma bad_normalised (t f p : nat) : normalised model_bad t f p = [1; 0; 0; 1].
Proof.
  unfold normalised, dot4, abs2_sum, to_norm, model_bad, const_vis, one_cell.
  cbn -[IZR].
  rewrite !Cabs_sqr. unfold C0, C1. cbn [Re Im].
  f_equal; [ring|]. f_equal; [ring|]. f_equal; [ring|]. f_equal. ring.
Qed.

Lemma bad_jhjinv (t f p : nat) : adat (compute_jhjinv model_bad) t f p = mkM2 1 0 0 1.
Proof.
  cbn [compute_jhjinv adat]. rewrite invert_nonzero_map, bad_normalised.
  cbn [map reshape22 nth]. rewrite masked_recip_zero.
  rewrite masked_recip_nonzero by lra. rewrite Rinv_1. reflexivity.
Qed.

Lemma Cexp_phase (x : R) : Cexp (minus_j * RtoC x) = mkC (cos x) (- sin x).
Proof.
  unfold Cexp, minus_j, RtoC, Cmul. cbn [Re Im].
  replace (0 * x - -1 * 0) with 0 by ring.
  replace (0 * 0 + -1 * x) with (- x) by ring.
  rewrite exp_0, cos_neg, sin_neg. f_equal; ring.
Qed.

Lemma gain_block (a : R) : zero_offdiag (exp_outer (mkV2 a 0)) = phase_block a.
Proof.
  unfold zero_offdiag, exp_outer, phase_block. cbn [v0 v1 m00 m11].
  rewrite !Cexp_phase. rewrite cos_0, sin_0.
  unfold Cmul, RtoC. cbn [Re Im]. f_equal; f_equal; ring.
Qed.

Lemma bad_update (g : gainarr) (a : R) (t f p : nat) :
  (forall t f p, adat g t f p = phase_block a) ->
  adat (compute_update model_bad obser_bad g (compute_jhjinv model_bad)) t f p =
  mkV2 (-2 * (PI / 4 * sin a - PI / 2 * cos a)) 0.
Proof.
  intros Hg. cbn [compute_update adat compute_jhr]. rewrite bad_jhjinv.
  unfold rgmh_sum, ghirgmh_block, ghi_block, spec_eye, Csum, model_bad, obser_bad, const_vis, one_cell.
  cbn [vshape na vdat M2sum_upto]. rewrite !Hg. unfold phase_block.
  cbn -[IZR Cmul Cadd PI].
  unfold M2Rapply, Cadd, Cmul, Cconj, RtoC, C0, C1.
  cbn [Re Im m00 m01 m10 m11 v0 v1]. f_equal; ring.
Qed.

Lemma bad_residual_norm (g : gainarr) (a : R) :
  (forall t f p, adat g t f p = phase_block a) ->
  norm_vis (compute_residual obser_bad model_bad g) =
  sqrt ((PI / 4 - cos a) * (PI / 4 - cos a) + (sin a - PI / 2) * (sin a - PI / 2)).
Proof.
  intros Hg. unfold norm_vis, model_bad, obser_bad, const_vis.
  cbn [compute_residual vshape vdat one_cell nt nf na sum_upto].
  unfold gmgh_block, M2abs2. cbn [vdat]. rewrite !Hg. rewrite !Cabs_sqr.
  unfold phase_block. C_unfold. f_equal. ring.
Qed.

Lemma bad_delta (g g' : gainarr) (a a' : R) :
  ashape g = one_cell ->
  (forall t f p, adat g t f p = phase_block a) ->
  (forall t f p, adat g' t f p = phase_block a') ->
  norm_ant (gains_diff g g') =
  sqrt ((cos a - cos a') * (cos a - cos a') + (sin a' - sin a) * (sin a' - sin a)).
Proof.
  intros Hs Hg Hg'. unfold norm_ant. cbn [gains_diff ashape adat]. rewrite Hs.
  cbn [one_cell nt nf na sum_upto]. unfold M2abs2. rewrite Hg, Hg'.
  unfold phase_block. C_unfold. rewrite !Cabs_sqr. cbn [Re Im]. f_equal. ring.
Qed.

(** One update of a uniform state. *)
Lemma bad_next (st : state) (a : R) :
  uniform_state st a ->
  uniform_state
    (mkState (next_phases model_bad obser_bad (compute_jhjinv model_bad) st)
       (gains_of_phases (next_phases model_bad obser_bad (compute_jhjinv model_bad) st))
       0 0 Inf)
    (a + fact (iters st) * (-2 * (PI / 4 * sin a - PI / 2 * cos a))).
Proof.
  intros (Hp & Hg & Hsp & Hsg).
  set (ph := next_phases _ _ _ _).
  set (a' := a + _).
  assert (E : forall t f p, adat ph t f p = mkV2 a' 0).
  { intros t f p. subst ph a'. cbn [next_phases adat].
    rewrite Hp, (bad_update _ a) by exact Hg. cbn [v0 v1]. f_equal; ring. }
  unfold uniform_state. cbn [phases gains].
  split; [exact E|]. split; [|split].
  - intros t f p. cbn [gains_of_phases adat]. rewrite E. apply gain_block.
  - exact Hsp.
  - exact Hsp.
Qed.

Lemma bad_init : uniform_state (init_state model_bad) 0.
Proof.
  unfold uniform_state, init_state. cbn [phases gains].
  split; [reflexivity|]. split; [|split; reflexivity].
  intros t f p. apply gain_block.
Qed.

(** The first two iterations on [model_bad] and [obser_bad] when chi-squared
    is checked in every iteration: the phase of the first slot goes to
    [pi/2] and back to [0], and chi-squared goes up. *)
Lemma bad_two_iterations (cfg : config) :
  min_delta_g cfg = 1 / 1000 -> maxiter cfg = 30%Z -> chi_interval cfg = 1%Z ->
  exists st1 old,
    state_after 1 cfg model_bad obser_bad (compute_jhjinv model_bad)
      (init_state model_bad) = Some st1
    /\ iters st1 = 1%Z
    /\ chi st1 = Fin old
    /\ 0 <= old
    /\ Rltb (min_delta_g cfg) (delta_g st1) = true
    /\ uniform_state st1 (PI / 2)
    /\ (forall t f p,
          adat (gains_of_phases
                  (next_phases model_bad obser_bad (compute_jhjinv model_bad) st1)) t f p =
          phase_block 0)
    /\ old < norm_vis (compute_residual obser_bad model_bad
                         (gains_of_phases
                            (next_phases model_bad obser_bad (compute_jhjinv model_bad) st1)))
    /\ norm_vis (compute_residual obser_bad model_bad
                   (gains_of_phases
                      (next_phases model_bad obser_bad (compute_jhjinv model_bad) st1)))
       <= 100.
Proof.
  intros Hd Hm Hc.
  set (J := compute_jhjinv model_bad). set (st0 := init_state model_bad).
  pose proof bad_init as U0. fold st0 in U0.
  pose proof (bad_next st0 0 U0) as U1. fold J in U1.
  replace (0 + fact (iters st0) * (-2 * (PI / 4 * sin 0 - PI / 2 * cos 0)))
    with (PI / 2) in U1
    by (unfold st0; cbn [init_state iters fact Z.modulo Z.eqb]; 
        rewrite sin_0, cos_0; unfold fact; cbn; field).
  set (ph1 := next_phases model_bad obser_bad J st0) in *.
  set (g1 := gains_of_phases ph1) in *.
  destruct U1 as (Up1 & Ug1 & Usp1 & Usg1). cbn [phases gains] in Up1, Ug1, Usp1, Usg1.
  set (st1 := mkState ph1 g1 (norm_ant (gains_diff (gains st0) g1)) 1
                      (Fin (norm_vis (compute_residual obser_bad model_bad g1)))).
  assert (B0 : body cfg model_bad obser_bad J st0 = Continue st1).
  { rewrite body_checked.
    - reflexivity.
    - rewrite Hm. cbn. lia.
    - rewrite Hc. discriminate.
    - rewrite Hc. reflexivity. }
  assert (U1 : uniform_state st1 (PI / 2)).
  { unfold uniform_state, st1. cbn [phases gains]. repeat split; assumption. }
  assert (D1 : delta_g st1 = sqrt 2).
  { unfold st1. cbn [delta_g].
    destruct U0 as (_ & Ug0 & _ & Usg0).
    rewrite (bad_delta _ _ 0 (PI / 2) Usg0 Ug0 Ug1).
    rewrite cos_0, sin_0, cos_PI2, sin_PI2. f_equal. ring. }
  assert (L1 : Rltb (min_delta_g cfg) (delta_g st1) = true).
  { apply Rltb_true. rewrite Hd, D1.
    apply Rlt_le_trans with 1; [lra|].
    rewrite <- sqrt_1 at 1. apply sqrt_le_1; lra. }
  pose proof (bad_next st1 (PI / 2) U1) as U2. fold J in U2.
  replace (PI / 2 + fact (iters st1) * (-2 * (PI / 4 * sin (PI / 2) - PI / 2 * cos (PI / 2))))
    with 0 in U2
    by (unfold st1; cbn [iters]; rewrite sin_PI2, cos_PI2; unfold fact; cbn; field).
  destruct U2 as (_ & Ug2 & _). cbn [gains] in Ug2.
  exists st1, (norm_vis (compute_residual obser_bad model_bad g1)).
  pose proof PI_RGT_0 as Hpi0. pose proof PI_4 as Hpi4.
  split; [|split; [|split; [|split; [|split; [|split; [|split; [|split]]]]]]].
  - cbn [state_after]. fold st0. rewrite Hd. unfold st0 at 1. cbn [init_state delta_g].
    rewrite Rltb_true by lra. fold st0. rewrite B0. reflexivity.
  - reflexivity.
  - reflexivity.
  - apply norm_vis_nonneg.
  - exact L1.
  - exact U1.
  - exact Ug2.
  - rewrite (bad_residual_norm _ (PI / 2) Ug1), (bad_residual_norm _ 0 Ug2).
    rewrite cos_0, sin_0, cos_PI2, sin_PI2.
    set (x := (PI / 4 - 0) * (PI / 4 - 0) + (1 - PI / 2) * (1 - PI / 2)).
    set (y := (PI / 4 - 1) * (PI / 4 - 1) + (0 - PI / 2) * (0 - PI / 2)).
    assert (Hxy : y - x = PI / 2) by (unfold x, y; field).
    assert (Hx : 0 <= x)
      by (unfold x; apply Rplus_le_le_0_compat; apply Rle_0_sqr).
    apply sqrt_lt_1; lra.
  - rewrite (bad_residual_norm _ 0 Ug2). rewrite cos_0, sin_0.
    rewrite <- (sqrt_square 100) by lra.
    set (q := PI / 4) in *.
    assert (Hq : 0 < q <= 1) by (unfold q; lra).
    replace (PI / 2) with (2 * q) by (unfold q; field).
    apply sqrt_le_1; nra.
Qed.

(** Running the loop from a state the loop reaches. *)
Lemma loop_from_state_after (cfg : config) (model obser : visarr) (jhjinv : antarr (M2 R))
                            (st0 : state) :
  forall (k fuel n : nat) (st : state),
    state_after k cfg model obser jhjinv st0 = Some st ->
    loop (k + fuel) cfg model obser jhjinv n st0 =
    loop fuel cfg model obser jhjinv (n + k) st.
Proof.
  induction k as [|k IH]; intros fuel n st H.
  - injection H as <-. rewrite Nat.add_0_r. reflexivity.
  - cbn [state_after] in H.
    destruct (state_after k cfg model obser jhjinv st0) as [st'|] eqn:E; [|discriminate].
    destruct (Rltb (min_delta_g cfg) (delta_g st')) eqn:L; [|discriminate].
    destruct (body cfg model obser jhjinv st') as [st''| |] eqn:B; try discriminate.
    injection H as <-.
    replace (S k + fuel)%nat with (k + S fuel)%nat by lia.
    rewrite (IH (S fuel) n st' eq_refl).
    cbn [loop]. rewrite L, B.
    replace (S (n + k)) with (n + S k)%nat by lia. reflexivity.
Qed.

(** The [Bad solutions.] branch is taken only under a negative [chi_tol]:
    the tolerance test comes first and holds whenever chi-squared went up. *)
Lemma body_bad_solutions (cfg : config) (model obser : visarr) (jhjinv : antarr (M2 R))
                         (st : state) (g : gainarr) (o : list string) :
  body cfg model obser jhjinv st = Stop g o ExitBadSolutions -> chi_tol cfg < 0.
Proof.
  unfold body.
  destruct (iters st + 1 >? maxiter cfg)%Z; [discriminate|].
  destruct (chi_interval cfg =? 0)%Z; [discriminate|].
  destruct ((iters st + 1) mod chi_interval cfg =? 0)%Z; [|discriminate].
  destruct (improvement_below _ _ _) eqn:I; [discriminate|].
  destruct (chi_increased _ _) eqn:U; [|discriminate].
  intros _. destruct (chi st) as [old|]; [|discriminate].
  cbn [improvement_below chi_increased] in I, U.
  apply Rltb_spec in U.
  destruct (Rlt_dec (old - norm_vis
                             (compute_residual obser model
                                (gains_of_phases (next_phases model obser jhjinv st))))
                    (chi_tol cfg)) as [Hlt|Hge].
  - rewrite (Rltb_true _ _ Hlt) in I. discriminate.
  - lra.
Qed.

Lemma bad_solutions_unreachable (cfg : config) (model obser : visarr)
                                (jhjinv : antarr (M2 R)) :
  0 <= chi_tol cfg ->
  forall (fuel n : nat) (st : state) (r : result),
    loop fuel cfg model obser jhjinv n st = Some (Returned r) ->
    ret_exit r <> ExitBadSolutions.
Proof.
  intros Htol. induction fuel as [|fuel IH]; intros n st r H; [discriminate|].
  cbn [loop] in H.
  destruct (Rltb (min_delta_g cfg) (delta_g st)).
  - destruct (body cfg model obser jhjinv st) as [st'|g o e|e] eqn:B.
    + eapply IH. exact H.
    + injection H as <-. cbn [ret_exit]. intros ->.
      apply body_bad_solutions in B. lra.
    + discriminate.
  - injection H as <-. discriminate.
Qed.

(** C1: on one antenna with model [[0,1],[0,0]], observation
    [[0, pi/4 - (pi/2)j],[0,0]] and [chi_interval=1], the check of the second
    iteration finds chi-squared above its previous value, and the solver
    returns at the tolerance test of line 169 without printing anything: the
    divergence branch below it is not reached. *)
Theorem divergence_test_shadowed :
  exists st1 old g,
    state_after 1 cfg_chi1 model_bad obser_bad (compute_jhjinv model_bad)
      (init_state model_bad) = Some st1
    /\ chi st1 = Fin old
    /\ g = gains_of_phases
             (next_phases model_bad obser_bad (compute_jhjinv model_bad) st1)
    /\ old < norm_vis (compute_residual obser_bad model_bad g)
    /\ full_pol_phase_only 2 model_bad obser_bad cfg_chi1 =
       Some (Returned (mkResult g [] ExitChiTol 2)).
Proof.
  destruct (bad_two_iterations cfg_chi1 eq_refl eq_refl eq_refl)
    as (st1 & old & Hst & Hit & Hchi & Hold & L1 & _ & _ & Hup & _).
  exists st1, old. eexists. split; [exact Hst|]. split; [exact Hchi|].
  split; [reflexivity|]. split; [exact Hup|].
  unfold full_pol_phase_only.
  pose proof (loop_from_state_after _ _ _ _ _ 1 1 0 st1 Hst) as E.
    cbn [Nat.add] in E. rewrite E.
  cbn [loop]. rewrite L1.
  rewrite body_checked;
    [| rewrite Hit; cbn; lia | cbn; discriminate | rewrite Hit; reflexivity].
  cbv zeta. rewrite Hchi. cbn [improvement_below].
  rewrite Rltb_true by (cbn [chi_tol cfg_chi1]; lra).
  reflexivity.
Qed.

(** The same input under [chi_tol=-100]: now the tolerance test fails and the
    divergence branch prints and returns, with the very same gains. *)
Lemma run_diverged :
  exists st1 g,
    g = gains_of_phases
          (next_phases model_bad obser_bad (compute_jhjinv model_bad) st1)
    /\ ashape g = one_cell
    /\ (forall t f p, adat g t f p = phase_block 0)
    /\ full_pol_phase_only 2 model_bad obser_bad cfg_chi1_neg =
       Some (Returned (mkResult g ["Bad solutions."%string] ExitBadSolutions 2)).
Proof.
  destruct (bad_two_iterations cfg_chi1_neg eq_refl eq_refl eq_refl)
    as (st1 & old & Hst & Hit & Hchi & Hold & L1 & U1 & Hg & Hup & Hle).
  exists st1. eexists. split; [reflexivity|]. split; [|split; [exact Hg|]].
  - cbn [gains_of_phases next_phases ashape]. apply U1.
  - unfold full_pol_phase_only.
    pose proof (loop_from_state_after _ _ _ _ _ 1 1 0 st1 Hst) as E.
    cbn [Nat.add] in E. rewrite E.
    cbn [loop]. rewrite L1.
    rewrite body_checked;
      [| rewrite Hit; cbn; lia | cbn; discriminate | rewrite Hit; reflexivity].
    cbv zeta. rewrite Hchi. cbn [improvement_below chi_increased].
    rewrite Rltb_false by (cbn [chi_tol cfg_chi1_neg]; lra).
    rewrite Rltb_true by exact Hup. reflexivity.
Qed.

Lemma run_shadowed :
  exists st1 g,
    g = gains_of_phases
          (next_phases model_bad obser_bad (compute_jhjinv model_bad) st1)
    /\ ashape g = one_cell
    /\ (forall t f p, adat g t f p = phase_block 0)
    /\ full_pol_phase_only 2 model_bad obser_bad cfg_chi1 =
       Some (Returned (mkResult g [] ExitChiTol 2)).
Proof.
  destruct (bad_two_iterations cfg_chi1 eq_refl eq_refl eq_refl)
    as (st1 & old & Hst & Hit & Hchi & Hold & L1 & U1 & Hg & Hup & Hle).
  exists st1. eexists. split; [reflexivity|]. split; [|split; [exact Hg|]].
  - cbn [gains_of_phases next_phases ashape]. apply U1.
  - unfold full_pol_phase_only.
    pose proof (loop_from_state_after _ _ _ _ _ 1 1 0 st1 Hst) as E.
    cbn [Nat.add] in E. rewrite E.
    cbn [loop]. rewrite L1.
    rewrite body_checked;
      [| rewrite Hit; cbn; lia | cbn; discriminate | rewrite Hit; reflexivity].
    cbv zeta. rewrite Hchi. cbn [improvement_below].
    rewrite Rltb_true by (cbn [chi_tol cfg_chi1]; lra).
    reflexivity.
Qed.

(** ** What a caller can tell apart *)

Lemma loop_stdout (cfg : config) (model obser : visarr) (jhjinv : antarr (M2 R)) :
  forall (fuel n : nat) (st : state) (r : result),
    loop fuel cfg model obser jhjinv n st = Some (Returned r) ->
    ret_stdout r =
    match ret_exit r with
    | ExitBadSolutions => ["Bad solutions."%string]
    | _ => []
    end.
Proof.
  induction fuel as [|fuel IH]; intros n st r H; [discriminate|].
  cbn [loop] in H.
  destruct (Rltb (min_delta_g cfg) (delta_g st)).
  - destruct (body_cases cfg model obser jhjinv st)
      as [[E _]|[[E _]|[[E _]|[[E _]|(d & c & E & _)]]]];
      rewrite E in H; try discriminate;
      try (injection H as <-; reflexivity).
    eapply IH. exact H.
  - injection H as <-. reflexivity.
Qed.

(** C2 (amended): the solver returns the gains array and nothing else; a
    run that ends at the divergence test differs from the others only by the
    printed line [Bad solutions.], and the other exits print nothing. *)
Theorem divergence_only_printed (fuel : nat) (model obser : visarr) (cfg : config)
                                (r : result) :
  full_pol_phase_only fuel model obser cfg = Some (Returned r) ->
  (ret_exit r = ExitBadSolutions -> ret_stdout r = ["Bad solutions."%string])
  /\ (ret_exit r <> ExitBadSolutions -> ret_stdout r = []).
Proof.
  intros H. unfold full_pol_phase_only in H. apply loop_stdout in H.
  rewrite H. split.
  - intros ->. reflexivity.
  - intros Hne. destruct (ret_exit r); try reflexivity. contradiction.
Qed.

(** The run that stops at the cap prints nothing. *)
Lemma divergence_only_printed_witness :
  ret_stdout (mkResult
          (gains_of_phases
             (next_phases (zeros_vis one_cell) (zeros_vis one_cell)
                (compute_jhjinv (zeros_vis one_cell)) (init_state (zeros_vis one_cell))))
          [] ExitMaxiter 1) = [].
Proof.
  apply (proj2 (divergence_only_printed 1 _ _ cfg_cap0 _ run_cap0_zeros)).
  cbn [ret_exit]. discriminate.
Defined.

(** C2 (counterexample): on all-zero arrays the run that stops at the
    iteration cap and the run that stops at the chi-squared tolerance return
    the same array, of the same shape and with the same entries, and print
    the same (nothing). *)
Lemma exits_share_a_value :
  exists r1 r2,
    full_pol_phase_only 1 (zeros_vis one_cell) (zeros_vis one_cell) cfg_cap0 =
      Some (Returned r1)
    /\ full_pol_phase_only 2 (zeros_vis one_cell) (zeros_vis one_cell) cfg_every =
      Some (Returned r2)
    /\ ret_exit r1 = ExitMaxiter
    /\ ret_exit r2 = ExitChiTol
    /\ ashape (ret_gains r1) = ashape (ret_gains r2)
    /\ (forall t f p, adat (ret_gains r1) t f p = adat (ret_gains r2) t f p)
    /\ ret_stdout r1 = ret_stdout r2
    /\ exists r3 r4,
         full_pol_phase_only 2 model_bad obser_bad cfg_chi1 = Some (Returned r3)
         /\ full_pol_phase_only 2 model_bad obser_bad cfg_chi1_neg = Some (Returned r4)
         /\ ret_exit r3 = ExitChiTol
         /\ ret_exit r4 = ExitBadSolutions
         /\ ashape (ret_gains r3) = ashape (ret_gains r4)
         /\ (forall t f p, adat (ret_gains r3) t f p = adat (ret_gains r4) t f p).
Proof.
  destruct run_every_zeros as (st1 & _ & Hph & Hrun).
  eexists _, _. split; [exact run_cap0_zeros|]. split; [exact Hrun|].
  cbn [ret_exit ret_gains ret_stdout].
  split; [reflexivity|]. split; [reflexivity|]. split; [|split; [|split]].
  - cbn [gains_of_phases next_phases ashape]. rewrite Hph. reflexivity.
  - intros t f p.
    rewrite !gains_of_zero_phases; [reflexivity| |].
    + apply next_phases_zeros. rewrite Hph. apply next_phases_zeros. reflexivity.
    + apply next_phases_zeros. reflexivity.
  - reflexivity.
  - destruct run_shadowed as (sa & ga & _ & Hsa & Hga & Hra).
    destruct run_diverged as (sb & gb & _ & Hsb & Hgb & Hrb).
    eexists _, _. split; [exact Hra|]. split; [exact Hrb|].
    cbn [ret_exit ret_gains].
    split; [reflexivity|]. split; [reflexivity|]. split.
    + rewrite Hsa, Hsb. reflexivity.
    + intros t f p. rewrite Hga, Hgb. reflexivity.
Qed.

(** ** The schedule on a run *)

(** The second iteration (number 1) of a run with the default keyword
    arguments on all-zero arrays for two antennas: the body goes on, and the
    phases of the next state are the previous ones plus 1 times the
    update. *)
Lemma relaxation_schedule_witness :
  exists st st',
    state_after 1 default_config (zeros_vis two_ants) (zeros_vis two_ants)
      (compute_jhjinv (zeros_vis two_ants)) (init_state (zeros_vis two_ants)) = Some st
    /\ body default_config (zeros_vis two_ants) (zeros_vis two_ants)
         (compute_jhjinv (zeros_vis two_ants)) st = Continue st'
    /\ adat (phases st') 0 0 1 =
       mkV2 (v0 (adat (phases st) 0 0 1)
             + 1 * v0 (adat (compute_update (zeros_vis two_ants) (zeros_vis two_ants)
                                (gains st) (compute_jhjinv (zeros_vis two_ants))) 0 0 1))
            (v1 (adat (phases st) 0 0 1)
             + 1 * v1 (adat (compute_update (zeros_vis two_ants) (zeros_vis two_ants)
                                (gains st) (compute_jhjinv (zeros_vis two_ants))) 0 0 1)).
Proof.
  eassert (H : state_after 1 default_config (zeros_vis two_ants) (zeros_vis two_ants)
      (compute_jhjinv (zeros_vis two_ants)) (init_state (zeros_vis two_ants)) = Some _).
  { cbn [state_after].
    rewrite Rltb_true by (cbn; lra).
    rewrite body_unchecked; [reflexivity | cbn; lia | discriminate | cbn; discriminate]. }
  match type of H with
  | _ = Some ?s =>
      eassert (B : body default_config (zeros_vis two_ants) (zeros_vis two_ants)
                     (compute_jhjinv (zeros_vis two_ants)) s = Continue _)
  end.
  { rewrite body_unchecked; [reflexivity | cbn; lia | discriminate | cbn; discriminate]. }
  eexists _, _. split; [exact H|]. split; [exact B|].
  pose proof (relaxation_schedule 1 _ _ default_config _ H) as (_ & _ & HC & _).
  exact (proj1 (HC _ B) 0%nat 0%nat 1%nat).
Defined.

(** * Further properties *)

(** ** More algebra of blocks *)

Lemma inv_gains_right (g : M2 C) :
  det2 g <> C0 -> M2mul g (inv_gains_block g) = M2id.
Proof.
  intros H. apply C_nonzero_norm in H.
  destruct g as [[a1 a2] [b1 b2] [c1 c2] [d1 d2]].
  unfold inv_gains_block, signs. C_unfold.
  f_equal; f_equal; field; exact H.
Qed.

Lemma det2_mul (a b : M2 C) : det2 (M2mul a b) = (det2 a * det2 b)%C.
Proof.
  destruct a as [[? ?] [? ?] [? ?] [? ?]], b as [[? ?] [? ?] [? ?] [? ?]].
  C_unfold. f_equal; ring.
Qed.

Lemma Cmul_nonzero (x y : C) : x <> C0 -> y <> C0 -> (x * y)%C <> C0.
Proof.
  intros Hx Hy E. apply C_nonzero_norm in Hx, Hy.
  destruct x as [x1 x2], y as [y1 y2]. unfold Cmul, C0 in E. cbn [Re Im] in *.
  injection E as E1 E2.
  assert (P : (x1 * x1 + x2 * x2) * (y1 * y1 + y2 * y2) = 0).
  { replace ((x1 * x1 + x2 * x2) * (y1 * y1 + y2 * y2))
      with ((x1 * y1 - x2 * y2) * (x1 * y1 - x2 * y2)
            + (x1 * y2 + x2 * y1) * (x1 * y2 + x2 * y1)) by ring.
    rewrite E1, E2. ring. }
  apply Rmult_integral in P. tauto.
Qed.

Lemma inv_gains_mul (a b : M2 C) :
  det2 a <> C0 -> det2 b <> C0 ->
  inv_gains_block (M2mul a b) = M2mul (inv_gains_block b) (inv_gains_block a).
Proof.
  intros Ha Hb.
  assert (Hab : det2 (M2mul a b) <> C0)
    by (rewrite det2_mul; apply Cmul_nonzero; assumption).
  rewrite <- (M2mul_id_r (inv_gains_block (M2mul a b))).
  rewrite <- (inv_gains_right a Ha).
  rewrite <- (M2mul_id_r a) at 2.
  rewrite <- (inv_gains_right b Hb).
  rewrite <- (M2mul_assoc a b), (M2mul_assoc (M2mul a b)).
  rewrite <- (M2mul_assoc (inv_gains_block (M2mul a b))).
  rewrite (inv_gains_left _ Hab), M2mul_id_l. reflexivity.
Qed.

Lemma inv_gains_id : inv_gains_block M2id = M2id.
Proof.
  unfold inv_gains_block, signs. C_unfold. f_equal; f_equal; field.
Qed.

Lemma round_trip_block_rev (gl gm v : M2 C) :
  det2 gl <> C0 -> det2 gm <> C0 ->
  M2mulT (M2mul gl (M2mulT (M2mul (inv_gains_block gl) v) (M2conj (inv_gains_block gm))))
         (M2conj gm) = v.
Proof.
  intros Hl Hm. rewrite !M2mulT_conj.
  rewrite <- (M2mul_assoc gl).
  rewrite <- (M2mul_assoc gl (inv_gains_block gl) v).
  rewrite (inv_gains_right gl Hl), M2mul_id_l.
  rewrite M2mul_assoc, <- M2H_mul.
  rewrite (inv_gains_right gm Hm), M2H_id, M2mul_id_r. reflexivity.
Qed.

Lemma compose_block (a1 a2 b1 b2 v : M2 C) :
  det2 a1 <> C0 -> det2 a2 <> C0 -> det2 b1 <> C0 -> det2 b2 <> C0 ->
  M2mulT (M2mul (inv_gains_block a2)
                (M2mulT (M2mul (inv_gains_block a1) v) (M2conj (inv_gains_block b1))))
         (M2conj (inv_gains_block b2))
  = M2mulT (M2mul (inv_gains_block (M2mul a1 a2)) v)
           (M2conj (inv_gains_block (M2mul b1 b2))).
Proof.
  intros Ha1 Ha2 Hb1 Hb2.
  rewrite (inv_gains_mul a1 a2 Ha1 Ha2), (inv_gains_mul b1 b2 Hb1 Hb2).
  rewrite !M2mulT_conj, M2H_mul, !M2mul_assoc. reflexivity.
Qed.

(** ** Phase-only gains *)

Lemma cos_sin_one (a : R) : cos a * cos a + sin a * sin a = 1.
Proof. pose proof (sin2_cos2 a) as H. unfold Rsqr in H. lra. Qed.

Lemma gain_block2 (a b : R) :
  zero_offdiag (exp_outer (mkV2 a b)) =
  mkM2 (mkC (cos a) (- sin a)) C0 C0 (mkC (cos b) (- sin b)).
Proof.
  unfold zero_offdiag, exp_outer. cbn [v0 v1 m00 m11].
  rewrite !Cexp_phase. unfold Cmul, RtoC. cbn [Re Im]. f_equal; f_equal; ring.
Qed.

Lemma phase_gain_left (a b : R) :
  let g := mkM2 (mkC (cos a) (- sin a)) C0 C0 (mkC (cos b) (- sin b)) in
  M2mul (M2H g) g = M2id.
Proof.
  intros g. subst g. pose proof (cos_sin_one a) as Ha. pose proof (cos_sin_one b) as Hb.
  generalize dependent (sin a). generalize dependent (cos a).
  generalize dependent (sin b). generalize dependent (cos b).
  intros cb sb Hb ca sa Ha.
  C_unfold. f_equal; f_equal; nra.
Qed.

Lemma phase_gain_det (a b : R) :
  det2 (mkM2 (mkC (cos a) (- sin a)) C0 C0 (mkC (cos b) (- sin b))) <> C0.
Proof.
  pose proof (cos_sin_one a) as Ha. pose proof (cos_sin_one b) as Hb.
  generalize dependent (sin a). generalize dependent (cos a).
  generalize dependent (sin b). generalize dependent (cos b).
  intros cb sb Hb ca sa Ha.
  C_unfold. intros E. injection E as E1 E2.
  assert (P : (ca * ca + sa * sa) * (cb * cb + sb * sb) = 0) by nra.
  rewrite Ha, Hb in P. lra.
Qed.

(** The closed-form inverse of a phase-only block is its conjugate
    transpose. *)
Lemma phase_gain_inv (a b : R) :
  let g := mkM2 (mkC (cos a) (- sin a)) C0 C0 (mkC (cos b) (- sin b)) in
  inv_gains_block g = M2H g.
Proof.
  intros g.
  assert (Hd : det2 g <> C0) by apply phase_gain_det.
  rewrite <- (M2mul_id_l (inv_gains_block g)).
  rewrite <- (phase_gain_left a b). fold g.
  rewrite M2mul_assoc, (inv_gains_right g Hd), M2mul_id_r. reflexivity.
Qed.

Lemma gains_of_phases_block (ph : phasearr) (t f p : nat) :
  adat (gains_of_phases ph) t f p =
  mkM2 (mkC (cos (v0 (adat ph t f p))) (- sin (v0 (adat ph t f p)))) C0 C0
       (mkC (cos (v1 (adat ph t f p))) (- sin (v1 (adat ph t f p)))).
Proof.
  cbn [gains_of_phases adat]. destruct (adat ph t f p) as [a b]. apply gain_block2.
Qed.

(** ** Properties of apply_gains *)

Lemma M2H_involutive (a : M2 C) : M2H (M2H a) = a.
Proof. destruct a as [[? ?] [? ?] [? ?] [? ?]]. M2_ring. Qed.

(** X1: applying unit gains leaves every visibility as it is. *)
Theorem apply_gains_identity (V : visarr) (s : shape) (t f l m : nat) :
  vshape (apply_gains V (identity_gains s)) = vshape V
  /\ vdat (apply_gains V (identity_gains s)) t f l m = vdat V t f l m.
Proof.
  split; [reflexivity|].
  cbn [apply_gains identity_gains vdat adat].
  rewrite inv_gains_id, M2mulT_conj, M2H_id, M2mul_id_l, M2mul_id_r. reflexivity.
Qed.

(** X2: applying gains [G1] and then gains [G2] is applying their
    antenna-wise product [G1.G2], when every block has a non-zero
    determinant. *)
Theorem apply_gains_compose (V : visarr) (G1 G2 : gainarr) (t f l m : nat) :
  ashape G1 = vshape V -> ashape G2 = vshape V ->
  nonsingular G1 -> nonsingular G2 ->
  in_shape (vshape V) t f l m ->
  vdat (apply_gains (apply_gains V G1) G2) t f l m =
  vdat (apply_gains V (gains_mul G1 G2)) t f l m.
Proof.
  intros H1 H2 N1 N2 (Ht & Hf & Hl & Hm).
  cbn [apply_gains gains_mul vdat adat].
  apply compose_block.
  - apply N1; rewrite H1; assumption.
  - apply N2; rewrite H2; assumption.
  - apply N1; rewrite H1; assumption.
  - apply N2; rewrite H2; assumption.
Qed.

Lemma skew_gains_nonsingular : nonsingular skew_gains.
Proof.
  intros t f p _ _ _. cbn [skew_gains adat]. C_unfold.
  intros E. injection E as E1 E2. lra.
Qed.

Lemma other_gains_nonsingular : nonsingular other_gains.
Proof.
  intros t f p _ _ _. cbn [other_gains adat]. C_unfold.
  intros E. injection E as E1 E2. lra.
Qed.

Lemma in_two_ants_01 : in_shape two_ants 0 0 0 1.
Proof. unfold in_shape, two_ants. cbn [nt nf na]. lia. Qed.

(** Unit visibilities, gains [diag(1j, 2)] and then [diag(3, 1j)], at the
    baseline (0, 1). *)
Lemma apply_gains_compose_witness :
  vdat (apply_gains (apply_gains unit_vis skew_gains) other_gains) 0 0 0 1 =
  vdat (apply_gains unit_vis (gains_mul skew_gains other_gains)) 0 0 0 1.
Proof.
  exact (apply_gains_compose unit_vis skew_gains other_gains 0 0 0 1
           eq_refl eq_refl skew_gains_nonsingular other_gains_nonsingular
           in_two_ants_01).
Defined.

(** X3: the round trip the other way: de-correcting with gains [G] and then
    corrupting with the same gains gives the visibilities back, when every
    block of [G] has a non-zero determinant. *)
Theorem corrupt_after_apply (V : visarr) (G : gainarr) (t f l m : nat) :
  ashape G = vshape V -> nonsingular G ->
  in_shape (vshape V) t f l m ->
  vdat (corrupt (apply_gains V G) G) t f l m = vdat V t f l m.
Proof.
  intros Hs N (Ht & Hf & Hl & Hm).
  cbn [apply_gains corrupt vdat gmgh_block].
  apply round_trip_block_rev; apply N; rewrite Hs; assumption.
Qed.

(** Unit visibilities and gains [diag(1j, 2)], at the baseline (0, 1). *)
Lemma corrupt_after_apply_witness :
  vdat (corrupt (apply_gains unit_vis skew_gains) skew_gains) 0 0 0 1 =
  vdat unit_vis 0 0 0 1.
Proof.
  exact (corrupt_after_apply unit_vis skew_gains 0 0 0 1
           eq_refl skew_gains_nonsingular in_two_ants_01).
Defined.

(** X4: for gains computed from phases, the closed-form inverse of
    [apply_gains] is the conjugate transpose, so the corrected visibility of
    a baseline [(l, m)] is [G_l^H . V . G_m]. *)
Theorem apply_gains_phase_only (V : visarr) (ph : phasearr) (t f l m : nat) :
  vdat (apply_gains V (gains_of_phases ph)) t f l m =
  M2mul (M2mul (M2H (adat (gains_of_phases ph) t f l)) (vdat V t f l m))
        (adat (gains_of_phases ph) t f m).
Proof.
  cbn [apply_gains vdat]. rewrite !gains_of_phases_block.
  rewrite !phase_gain_inv. cbv zeta.
  rewrite M2mulT_conj, M2H_involutive. reflexivity.
Qed.

(** ** Gains the solver returns *)

Lemma tied_init (model : visarr) : tied (init_state model).
Proof. reflexivity. Qed.

(** A property of the phases that every update keeps holds of the phases
    behind the returned gains. *)
Lemma loop_phase_invariant (cfg : config) (model obser : visarr) (jhjinv : antarr (M2 R))
                           (P : phasearr -> Prop) :
  (forall st, tied st -> P (phases st) -> P (next_phases model obser jhjinv st)) ->
  forall (fuel n : nat) (st : state) (r : result),
    tied st -> P (phases st) ->
    loop fuel cfg model obser jhjinv n st = Some (Returned r) ->
    exists ph, P ph /\ ret_gains r = gains_of_phases ph.
Proof.
  intros Hstep. induction fuel as [|fuel IH]; intros n st r Ht HP H; [discriminate|].
  cbn [loop] in H.
  destruct (Rltb (min_delta_g cfg) (delta_g st)).
  - pose proof (Hstep st Ht HP) as HP'.
    destruct (body_cases cfg model obser jhjinv st)
      as [[E _]|[[E _]|[[E _]|[[E _]|(d & c & E & _)]]]];
      rewrite E in H; try discriminate;
      try (injection H as <-; eexists; split; [exact HP'|reflexivity]).
    eapply IH; [| |exact H]; [reflexivity|exact HP'].
  - injection H as <-. exists (phases st). split; [exact HP|exact Ht].
Qed.


(** ** compute_jhr and compute_update *)

(** Only the two diagonal entries of the summed [rgmh] enter [jhr]. *)
Lemma jhr_entries (obser model : visarr) (g : gainarr) (t f p : nat) :
  adat (compute_jhr obser model g) t f p =
  mkV2 (-2 * Im (Cconj (m00 (adat g t f p)) * m00 (rgmh_sum obser model g t f p)
                 + Cconj (m01 (adat g t f p)) * m11 (rgmh_sum obser model g t f p))%C)
       (-2 * Im (Cconj (m10 (adat g t f p)) * m00 (rgmh_sum obser model g t f p)
                 + Cconj (m11 (adat g t f p)) * m11 (rgmh_sum obser model g t f p))%C).
Proof.
  cbn [compute_jhr adat].
  generalize (rgmh_sum obser model g t f p) as r. generalize (adat g t f p) as G.
  intros [[? ?] [? ?] [? ?] [? ?]] [[? ?] [? ?] [? ?] [? ?]].
  unfold ghirgmh_block, ghi_block, spec_eye, Csum.
  cbn -[IZR Cmul Cadd]. C_unfold. f_equal; f_equal; ring.
Qed.

Lemma M2sum_upto_ext (n : nat) (f g : nat -> M2 C) :
  (forall i, (i < n)%nat -> f i = g i) -> M2sum_upto n f = M2sum_upto n g.
Proof.
  induction n as [|n IH]; intros H; cbn [M2sum_upto]; [reflexivity|].
  rewrite IH by (intros i Hi; apply H; lia).
  rewrite (H n) by lia. reflexivity.
Qed.

Lemma M2mul_zero_r (a : M2 C) : M2mul a M2zero = M2zero.
Proof. destruct a as [[? ?] [? ?] [? ?] [? ?]]. M2_ring. Qed.

Lemma M2mul_add_r (a b c : M2 C) : M2mul a (M2add b c) = M2add (M2mul a b) (M2mul a c).
Proof.
  destruct a as [[? ?] [? ?] [? ?] [? ?]], b as [[? ?] [? ?] [? ?] [? ?]],
           c as [[? ?] [? ?] [? ?] [? ?]].
  M2_ring.
Qed.

Lemma M2sum_upto_mul_l (a : M2 C) (n : nat) (f : nat -> M2 C) :
  M2sum_upto n (fun q => M2mul a (f q)) = M2mul a (M2sum_upto n f).
Proof.
  induction n as [|n IH]; cbn [M2sum_upto].
  - symmetry. apply M2mul_zero_r.
  - rewrite IH, M2mul_add_r. reflexivity.
Qed.

(** The sum of [M.M^H] over the baselines of an antenna has real diagonal. *)
Lemma gram_sum_real (n : nat) (f : nat -> M2 C) :
  Im (m00 (M2sum_upto n (fun q => M2mulT (f q) (M2conj (f q))))) = 0
  /\ Im (m11 (M2sum_upto n (fun q => M2mulT (f q) (M2conj (f q))))) = 0.
Proof.
  induction n as [|n [IH0 IH1]]; cbn [M2sum_upto]; [split; reflexivity|].
  destruct (f n) as [[a1 a2] [b1 b2] [c1 c2] [d1 d2]].
  unfold M2add, M2map2. cbn [m00 m11]. unfold Cadd. cbn [Re Im].
  rewrite IH0, IH1. C_unfold. split; ring.
Qed.

(** One baseline's term of [rgmh] when the observation is the model
    corrupted by phase-only gains. *)
Lemma rgmh_term_at_solution (gp gq m : M2 C) (a b : R) :
  gq = mkM2 (mkC (cos a) (- sin a)) C0 C0 (mkC (cos b) (- sin b)) ->
  M2mulT (M2mul (M2mulT (M2mul gp m) (M2conj gq)) gq) (M2conj m) =
  M2mul gp (M2mulT m (M2conj m)).
Proof.
  intros ->. rewrite !M2mulT_conj.
  rewrite (M2mul_assoc (M2mul gp m)).
  rewrite (phase_gain_left a b). cbv zeta. rewrite M2mul_id_r.
  apply M2mul_assoc.
Qed.

(** At gains that reproduce the observation from the model, [jhr] is zero. *)
Lemma jhr_stationary (obser model : visarr) (ph : phasearr) (t f p : nat) :
  (forall q, (q < na (vshape model))%nat ->
             vdat obser t f p q = gmgh_block (gains_of_phases ph) model t f p q) ->
  adat (compute_jhr obser model (gains_of_phases ph)) t f p = mkV2 0 0.
Proof.
  intros Hobs. rewrite jhr_entries.
  assert (E : rgmh_sum obser model (gains_of_phases ph) t f p =
              M2mul (adat (gains_of_phases ph) t f p)
                    (M2sum_upto (na (vshape model))
                       (fun q => M2mulT (vdat model t f p q) (M2conj (vdat model t f p q))))).
  { unfold rgmh_sum. rewrite <- M2sum_upto_mul_l.
    apply M2sum_upto_ext. intros q Hq. rewrite (Hobs q Hq).
    unfold gmgh_block.
    apply (rgmh_term_at_solution _ _ _ (v0 (adat ph t f q)) (v1 (adat ph t f q))).
    apply gains_of_phases_block. }
  rewrite E.
  destruct (gram_sum_real (na (vshape model)) (fun q => vdat model t f p q)) as [S0 S1].
  cbv beta in S0, S1.
  set (S := M2sum_upto _ _) in *.
  rewrite gains_of_phases_block.
  pose proof (cos_sin_one (v0 (adat ph t f p))) as Ha.
  pose proof (cos_sin_one (v1 (adat ph t f p))) as Hb.
  generalize dependent (sin (v0 (adat ph t f p))).
  generalize dependent (cos (v0 (adat ph t f p))).
  generalize dependent (sin (v1 (adat ph t f p))).
  generalize dependent (cos (v1 (adat ph t f p))).
  intros cb sb Hb ca sa Ha.
  destruct S as [[x0 y0] [x1 y1] [x2 y2] [x3 y3]].
  cbn [m00 m11 Im] in S0, S1. subst y0 y3.
  C_unfold. f_equal; ring.
Qed.

(** X7: at phase-only gains that reproduce the observation from the model
    exactly, the update is zero: the solution is a fixed point of the
    iteration. *)
Theorem update_zero_at_solution (model : visarr) (ph : phasearr)
                                (jhjinv : antarr (M2 R)) (t f p : nat) :
  adat (compute_update model (corrupt model (gains_of_phases ph))
                       (gains_of_phases ph) jhjinv) t f p = mkV2 0 0.
Proof.
  cbn [compute_update adat]. rewrite jhr_stationary by reflexivity.
  unfold M2Rapply. cbn [v0 v1]. f_equal; ring.
Qed.

Lemma zero_phase_gain (ph : phasearr) (t f p : nat) :
  adat ph t f p = mkV2 0 0 -> adat (gains_of_phases ph) t f p = M2id.
Proof.
  intros H. rewrite gains_of_phases_block, H. cbn [v0 v1].
  rewrite cos_0, sin_0, Ropp_0. reflexivity.
Qed.

Lemma gmgh_identity (g : gainarr) (model : visarr) (t f l m : nat) :
  adat g t f l = M2id -> adat g t f m = M2id ->
  gmgh_block g model t f l m = vdat model t f l m.
Proof.
  intros Hl Hm. unfold gmgh_block. rewrite Hl, Hm.
  rewrite M2mulT_conj, M2H_id, M2mul_id_l, M2mul_id_r. reflexivity.
Qed.

(** With the model as observation and zero phases, an update leaves the
    phases at zero. *)
Lemma perfect_step (model : visarr) (jhjinv : antarr (M2 R)) (st : state) :
  tied st ->
  (forall t f p, adat (phases st) t f p = mkV2 0 0) ->
  forall t f p, adat (next_phases model model jhjinv st) t f p = mkV2 0 0.
Proof.
  intros Ht HP t f p. cbn [next_phases adat compute_update].
  rewrite Ht. rewrite jhr_stationary.
  - rewrite HP. unfold M2Rapply. cbn [v0 v1]. f_equal; ring.
  - intros q _. symmetry. apply gmgh_identity; apply zero_phase_gain; apply HP.
Qed.



(** ** Antennas without model flux *)

Lemma normalised_closed (model : visarr) (t f p : nat) :
  let s (k : M2 C -> C) :=
    sum_upto (na (vshape model))
             (fun q => Cabs (k (vdat model t f p q)) * Cabs (k (vdat model t f p q))) in
  normalised model t f p =
  [2 * s m00 + s m01 + s m10; 0; 0; s m01 + s m10 + 2 * s m11].
Proof.
  intros s. unfold normalised, dot4, abs2_sum, to_norm.
  cbn -[IZR sum_upto]. fold (s m00). fold (s m01). fold (s m10). fold (s m11).
  f_equal; [ring|]. f_equal; [ring|]. f_equal; [ring|]. f_equal. ring.
Qed.

Lemma jhjinv_no_flux (model : visarr) (t f p : nat) :
  no_flux model t f p -> adat (compute_jhjinv model) t f p = mkM2 0 0 0 0.
Proof.
  intros Hnf.
  cbn [compute_jhjinv adat]. rewrite invert_nonzero_map, normalised_closed.
  cbn [map reshape22 nth]. rewrite masked_recip_zero.
  assert (Z : forall k : M2 C -> C, k M2zero = C0 ->
     sum_upto (na (vshape model))
       (fun q => Cabs (k (vdat model t f p q)) * Cabs (k (vdat model t f p q))) = 0).
  { intros k Hk. apply sum_upto_zero. intros q Hq. rewrite (Hnf q Hq), Hk.
    rewrite Cabs_C0. ring. }
  rewrite (Z m00), (Z m01), (Z m10), (Z m11) by reflexivity.
  replace (2 * 0 + 0 + 0) with 0 by ring. replace (0 + 0 + 2 * 0) with 0 by ring.
  rewrite masked_recip_zero. reflexivity.
Qed.

(** X10: an antenna without model flux gets the zero block from
    [compute_jhjinv], and line 61 selects no entry for it: no division is
    made. *)
Theorem compute_jhjinv_no_flux_block (model : visarr) (t f p : nat) :
  no_flux model t f p ->
  adat (compute_jhjinv model) t f p = mkM2 0 0 0 0
  /\ divisors (normalised model t f p) = [].
Proof.
  intros Hnf. split; [apply jhjinv_no_flux; exact Hnf|].
  rewrite normalised_closed.
  assert (Z : forall k : M2 C -> C, k M2zero = C0 ->
     sum_upto (na (vshape model))
       (fun q => Cabs (k (vdat model t f p q)) * Cabs (k (vdat model t f p q))) = 0).
  { intros k Hk. apply sum_upto_zero. intros q Hq. rewrite (Hnf q Hq), Hk.
    rewrite Cabs_C0. ring. }
  rewrite (Z m00), (Z m01), (Z m10), (Z m11) by reflexivity.
  replace (2 * 0 + 0 + 0) with 0 by ring. replace (0 + 0 + 2 * 0) with 0 by ring.
  unfold divisors. cbn [filter].
  replace (nonzero 0) with false by (symmetry; apply nonzero_false; reflexivity).
  reflexivity.
Qed.

(** The second antenna of a two-antenna array of zeros. *)
Lemma compute_jhjinv_no_flux_block_witness :
  adat (compute_jhjinv (zeros_vis two_ants)) 0 0 1 = mkM2 0 0 0 0
  /\ divisors (normalised (zeros_vis two_ants) 0 0 1) = [].
Proof.
  assert (H : no_flux (zeros_vis two_ants) 0 0 1) by (intros q _; reflexivity).
  exact (compute_jhjinv_no_flux_block (zeros_vis two_ants) 0 0 1 H).
Defined.

Lemma update_no_flux (model obser : visarr) (g : gainarr) (t f p : nat) :
  no_flux model t f p ->
  adat (compute_update model obser g (compute_jhjinv model)) t f p = mkV2 0 0.
Proof.
  intros Hnf. cbn [compute_update adat].
  rewrite (jhjinv_no_flux model t f p Hnf).
  unfold M2Rapply. cbn [m00 m01 m10 m11]. f_equal; ring.
Qed.


Lemma zeros_no_flux (s : shape) (t f p : nat) : no_flux (zeros_vis s) t f p.
Proof. intros q _. reflexivity. Qed.


(** ** A common phase *)

Lemma Cexp_unit (theta : R) :
  (Cconj (Cexp (minus_j * RtoC theta)) * Cexp (minus_j * RtoC theta))%C = C1.
Proof.
  rewrite Cexp_phase. pose proof (cos_sin_one theta) as H.
  unfold Cconj, Cmul, C1. cbn [Re Im]. f_equal; nra.
Qed.

(** Rotating both gains of a baseline by a common unit factor [u] leaves
    [G_l . M . G_m^H] as it is. *)
Lemma gmgh_rotate (u : C) (a b m : M2 C) :
  (Cconj u * u)%C = C1 ->
  M2mulT (M2mul (M2map (fun z => (u * z)%C) a) m)
         (M2conj (M2map (fun z => (u * z)%C) b)) =
  M2mulT (M2mul a m) (M2conj b).
Proof.
  intros Hu.
  assert (S : M2mulT (M2mul (M2map (fun z => (u * z)%C) a) m)
                     (M2conj (M2map (fun z => (u * z)%C) b)) =
              M2map (fun z => ((Cconj u * u) * z)%C) (M2mulT (M2mul a m) (M2conj b))).
  { destruct a as [[a1 a2] [a3 a4] [a5 a6] [a7 a8]],
             b as [[b1 b2] [b3 b4] [b5 b6] [b7 b8]],
             m as [[c1 c2] [c3 c4] [c5 c6] [c7 c8]], u as [ur ui].
    C_unfold. f_equal; f_equal; ring. }
  rewrite S, Hu.
  generalize (M2mulT (M2mul a m) (M2conj b)) as x.
  intros [[x1 x2] [x3 x4] [x5 x6] [x7 x8]]. C_unfold. f_equal; f_equal; ring.
Qed.

(** The same for one baseline's term of [rgmh] seen from antenna [p]:
    [conj(u.g) * (D . (u.G_q) . M^H)] has the factor [conj(u)*u]. *)
Lemma rgmh_sum_rotate (theta : R) (obser model : visarr) (g : gainarr) (t f p : nat) :
  rgmh_sum obser model (rotate_gains theta g) t f p =
  M2map (fun z => (Cexp (minus_j * RtoC theta) * z)%C) (rgmh_sum obser model g t f p).
Proof.
  unfold rgmh_sum. set (u := Cexp (minus_j * RtoC theta)).
  induction (na (vshape model)) as [|n IH]; cbn [M2sum_upto].
  - unfold M2zero, M2map, C0, Cmul. cbn [m00 m01 m10 m11 Re Im].
    destruct u as [ur ui]. cbn [Re Im]. f_equal; f_equal; ring.
  - rewrite IH. cbn [rotate_gains adat]. fold u.
    generalize (M2sum_upto n
      (fun q => M2mulT (M2mul (vdat obser t f p q) (adat g t f q))
                       (M2conj (vdat model t f p q)))) as S.
    generalize (vdat obser t f p n) as D. generalize (adat g t f n) as G.
    generalize (vdat model t f p n) as M.
    intros [[a1 a2] [a3 a4] [a5 a6] [a7 a8]] [[b1 b2] [b3 b4] [b5 b6] [b7 b8]]
           [[c1 c2] [c3 c4] [c5 c6] [c7 c8]] [[d1 d2] [d3 d4] [d5 d6] [d7 d8]].
    destruct u as [ur ui]. C_unfold. f_equal; f_equal; ring.
Qed.

(** X12: multiplying every gain by a common phase factor [exp(-1j*theta)]
    changes neither the residual nor the update: the data fix the phases
    only up to a common rotation. *)
Theorem common_phase_unobservable (theta : R) (obser model : visarr) (g : gainarr)
                                  (jhjinv : antarr (M2 R)) (t f l m : nat) :
  vdat (compute_residual obser model (rotate_gains theta g)) t f l m =
  vdat (compute_residual obser model g) t f l m
  /\ adat (compute_update model obser (rotate_gains theta g) jhjinv) t f l =
     adat (compute_update model obser g jhjinv) t f l.
Proof.
  split.
  - cbn [compute_residual vdat]. f_equal. unfold gmgh_block.
    cbn [rotate_gains adat]. apply gmgh_rotate. apply Cexp_unit.
  - cbn [compute_update adat]. f_equal.
    rewrite !jhr_entries, rgmh_sum_rotate. cbn [rotate_gains adat].
    pose proof (Cexp_unit theta) as Hu.
    set (u := Cexp (minus_j * RtoC theta)) in *.
    assert (E : forall z w : C,
               Im (Cconj (u * z) * (u * w))%C = Im (Cconj z * w)%C).
    { intros z w.
      replace (Cconj (u * z) * (u * w))%C with ((Cconj u * u) * (Cconj z * w))%C.
      - rewrite Hu. destruct z as [zr zi], w as [wr wi]. unfold Cmul, Cconj, C1. cbn [Re Im]. ring.
      - destruct u as [ur ui], z as [zr zi], w as [wr wi]. unfold Cmul, Cconj. cbn [Re Im]. f_equal; ring. }
    generalize (rgmh_sum obser model g t f l) as r. generalize (adat g t f l) as G.
    intros [g0 g1 g2 g3] [r0 r1 r2 r3].
    unfold M2map. cbn [m00 m01 m10 m11].
    assert (A : forall x y : C, Im (x + y)%C = Im x + Im y) by reflexivity.
    rewrite !A, !E. reflexivity.
Qed.

(** ** Counting iterations *)

(** What the body's answer says about the tests it went through. *)
Lemma body_tests (cfg : config) (model obser : visarr) (jhjinv : antarr (M2 R))
                 (st : state) :
  match body cfg model obser jhjinv st with
  | Continue st' =>
      chi_interval cfg <> 0%Z
      /\ (chi st' = chi st
          \/ (((iters st + 1) mod chi_interval cfg = 0)%Z /\ exists c, chi st' = Fin c))
  | Stop _ _ ExitMaxiter => (maxiter cfg < iters st + 1)%Z
  | Stop _ _ ExitDeltaG => False
  | Stop _ _ _ =>
      chi_interval cfg <> 0%Z /\ ((iters st + 1) mod chi_interval cfg = 0)%Z
      /\ exists old, chi st = Fin old
  | Throw _ => chi_interval cfg = 0%Z /\ (iters st + 1 <= maxiter cfg)%Z
  end.
Proof.
  unfold body.
  destruct (Z.gtb_spec (iters st + 1) (maxiter cfg)) as [Hgt|Hle]; [lia|].
  destruct (Z.eqb_spec (chi_interval cfg) 0) as [Hz|Hnz]; [split; assumption|].
  destruct (Z.eqb_spec ((iters st + 1) mod chi_interval cfg) 0) as [Hm|Hm].
  - destruct (chi st) as [old|] eqn:Hchi.
    + destruct (improvement_below _ _ _); [repeat split; eauto|].
      destruct (chi_increased _ _); [repeat split; eauto|].
      split; [assumption|]. right. split; [assumption|]. eexists. reflexivity.
    + cbn [improvement_below chi_increased chi].
      split; [assumption|]. right. split; [assumption|]. eexists. reflexivity.
  - split; [assumption|]. left. reflexivity.
Qed.

Lemma loop_counts (cfg : config) (model obser : visarr) (jhjinv : antarr (M2 R)) :
  forall (fuel n : nat) (st : state) (r : result),
    iters st = Z.of_nat n ->
    (n = 0%nat \/ (iters st <= maxiter cfg)%Z) ->
    loop fuel cfg model obser jhjinv n st = Some (Returned r) ->
    (ret_exit r = ExitMaxiter -> ret_iters r = max_iterations cfg)
    /\ (ret_exit r <> ExitMaxiter -> (Z.of_nat (ret_iters r) <= Z.max 0 (maxiter cfg))%Z).
Proof.
  unfold max_iterations.
  induction fuel as [|fuel IH]; intros n st r Hn Hcap H; [discriminate|].
  cbn [loop] in H.
  destruct (Rltb (min_delta_g cfg) (delta_g st)).
  - destruct (body_cases cfg model obser jhjinv st)
      as [[E Hgt]|[[E _]|[[E Hle]|[[E Hle]|(d & c & E & Hle)]]]];
      rewrite E in H; try discriminate.
    + injection H as <-. cbn [ret_exit ret_iters]. split; [intros _|congruence]. lia.
    + injection H as <-. cbn [ret_exit ret_iters]. split; [discriminate|intros _]. lia.
    + injection H as <-. cbn [ret_exit ret_iters]. split; [discriminate|intros _]. lia.
    + apply IH in H; [exact H | cbn [iters]; lia | right; cbn [iters]; exact Hle].
  - injection H as <-. cbn [ret_exit ret_iters]. split; [discriminate|intros _]. lia.
Qed.

(** X13: the solver leaves through the iteration cap exactly when the body
    has run [max(1, maxiter + 1)] times; through every other exit it has run
    at most [max(0, maxiter)] times. *)
Theorem cap_exit_iterations (fuel : nat) (model obser : visarr) (cfg : config)
                            (r : result) :
  full_pol_phase_only fuel model obser cfg = Some (Returned r) ->
  (ret_exit r = ExitMaxiter <-> ret_iters r = max_iterations cfg)
  /\ (ret_exit r <> ExitMaxiter -> (Z.of_nat (ret_iters r) <= Z.max 0 (maxiter cfg))%Z).
Proof.
  intros H. unfold full_pol_phase_only in H.
  apply loop_counts in H; [|reflexivity|left; reflexivity].
  destruct H as [Hcap Hother]. split; [|exact Hother]. split; [exact Hcap|].
  intros Hn.
  destruct (ret_exit r); try reflexivity;
    (specialize (Hother ltac:(discriminate)); unfold max_iterations in Hn; lia).
Qed.

(** With [maxiter=0] the cap exit comes after [max(1, 0 + 1) = 1]
    iteration. *)
Lemma cap_exit_iterations_witness :
  ret_iters (mkResult
          (gains_of_phases
             (next_phases (zeros_vis one_cell) (zeros_vis one_cell)
                (compute_jhjinv (zeros_vis one_cell)) (init_state (zeros_vis one_cell))))
          [] ExitMaxiter 1) = max_iterations cfg_cap0.
Proof.
  apply (proj1 (proj1 (cap_exit_iterations 1 _ _ cfg_cap0 _ run_cap0_zeros))).
  reflexivity.
Defined.

Lemma two_multiples (ci j i : Z) :
  ci <> 0%Z -> (1 <= j)%Z -> (j < i)%Z -> (j mod ci = 0)%Z -> (i mod ci = 0)%Z ->
  (2 * Z.abs ci <= i)%Z.
Proof.
  intros Hci Hj Hji Mj Mi.
  apply Z.mod_divide in Mj; [|exact Hci]. apply Z.mod_divide in Mi; [|exact Hci].
  destruct Mj as [kj Ej], Mi as [ki Ei]. subst j i.
  destruct (Z.abs_spec ci) as [[Hs ->]|[Hs ->]].
  - assert (1 <= kj)%Z by nia. assert (kj + 1 <= ki)%Z by nia. nia.
  - assert (kj <= -1)%Z by nia. assert (ki <= kj - 1)%Z by nia. nia.
Qed.

Lemma loop_chi_exit (cfg : config) (model obser : visarr) (jhjinv : antarr (M2 R)) :
  forall (fuel n : nat) (st : state) (r : result),
    iters st = Z.of_nat n ->
    (chi st = Inf
     \/ exists j, (1 <= j <= iters st)%Z /\ (j mod chi_interval cfg = 0)%Z) ->
    loop fuel cfg model obser jhjinv n st = Some (Returned r) ->
    ret_exit r = ExitChiTol \/ ret_exit r = ExitBadSolutions ->
    (2 * Z.abs (chi_interval cfg) <= Z.of_nat (ret_iters r))%Z.
Proof.
  induction fuel as [|fuel IH]; intros n st r Hn Hchi H He; [discriminate|].
  cbn [loop] in H.
  destruct (Rltb (min_delta_g cfg) (delta_g st)).
  - pose proof (body_tests cfg model obser jhjinv st) as T.
    destruct (body cfg model obser jhjinv st) as [st'|g o e|e] eqn:B.
    + pose proof (body_continue _ _ _ _ _ _ B) as (Hi & _).
      destruct T as (Hnz & T).
      apply IH in H; [exact H | rewrite Hi; lia | | exact He].
      destruct T as [T|(Hm & c & T)].
      * rewrite T. destruct Hchi as [Hc|(j & Hj & Mj)]; [left; exact Hc|].
        right. exists j. split; [lia|exact Mj].
      * right. exists (iters st + 1)%Z. split; [lia|exact Hm].
    + injection H as <-. cbn [ret_exit ret_iters] in *.
      destruct e; destruct He as [He|He]; try discriminate;
        destruct T as (Hnz & Hm & old & Hold);
        (destruct Hchi as [Hc|(j & Hj & Mj)]; [congruence|]);
        replace (Z.of_nat (S n)) with (iters st + 1)%Z by lia;
        apply (two_multiples _ j); try assumption; lia.
    + discriminate.
  - injection H as <-. cbn [ret_exit] in He. destruct He; discriminate.
Qed.

(** X14: the first chi-squared check never ends a run, because it compares
    with [inf]: when the solver leaves through the tolerance test or through
    the divergence test, the body has run at least [2 * |chi_interval|]
    times. *)
Theorem chi_exit_after_two_checks (fuel : nat) (model obser : visarr) (cfg : config)
                                  (r : result) :
  full_pol_phase_only fuel model obser cfg = Some (Returned r) ->
  ret_exit r = ExitChiTol \/ ret_exit r = ExitBadSolutions ->
  (2 * Z.abs (chi_interval cfg) <= Z.of_nat (ret_iters r))%Z.
Proof.
  intros H He. unfold full_pol_phase_only in H.
  eapply loop_chi_exit; [| |exact H|exact He]; [reflexivity|left; reflexivity].
Qed.

(** The run on the one-antenna input of [model_bad] with a check in every
    iteration ends at the second check. *)
Lemma chi_exit_after_two_checks_witness :
  exists r,
    full_pol_phase_only 2 model_bad obser_bad cfg_chi1 = Some (Returned r)
    /\ ret_exit r = ExitChiTol
    /\ (2 * Z.abs (chi_interval cfg_chi1) <= Z.of_nat (ret_iters r))%Z.
Proof.
  destruct run_shadowed as (st1 & g & _ & _ & _ & Hrun).
  eexists. split; [exact Hrun|]. split; [reflexivity|].
  exact (chi_exit_after_two_checks 2 _ _ cfg_chi1 _ Hrun (or_introl eq_refl)).
Defined.

(** ** The exception *)

Lemma loop_no_raise (cfg : config) (model obser : visarr) (jhjinv : antarr (M2 R)) :
  chi_interval cfg <> 0%Z ->
  forall (fuel n : nat) (st : state) (e : exn) (k : nat),
    loop fuel cfg model obser jhjinv n st <> Some (Raised e k).
Proof.
  intros Hnz. induction fuel as [|fuel IH]; intros n st e k H; [discriminate|].
  cbn [loop] in H.
  destruct (Rltb (min_delta_g cfg) (delta_g st)); [|discriminate].
  pose proof (body_tests cfg model obser jhjinv st) as T.
  destruct (body cfg model obser jhjinv st) as [st'|g o x|x].
  - exact (IH _ _ _ _ H).
  - discriminate.
  - destruct T as [T _]. contradiction.
Qed.

(** X15: on arrays of one shape, the solver raises exactly when
    [chi_interval] is 0, the cap allows a first chi-squared test
    ([maxiter >= 1]) and the loop is entered ([min_delta_g < 1]); the
    exception is the [ZeroDivisionError] of [iters % chi_interval], in the
    first iteration. *)
Theorem raises_iff_zero_interval (fuel : nat) (model obser : visarr) (cfg : config)
                                 (e : exn) (n : nat) :
  vshape obser = vshape model ->
  full_pol_phase_only (S fuel) model obser cfg = Some (Raised e n)
  <-> (chi_interval cfg = 0%Z /\ (1 <= maxiter cfg)%Z /\ min_delta_g cfg < 1
       /\ e = ZeroDivisionError /\ n = 1%nat).
Proof.
  intros _.
  unfold full_pol_phase_only. cbn [loop].
  change (delta_g (init_state model)) with 1.
  set (st0 := init_state model).
  assert (I0 : iters st0 = 0%Z) by reflexivity.
  pose proof (body_tests cfg model obser (compute_jhjinv model) st0) as T.
  split.
  - intros H.
    destruct (Rltb (min_delta_g cfg) 1) eqn:L; [|discriminate].
    apply Rltb_spec in L.
    destruct (body cfg model obser (compute_jhjinv model) st0) as [st'|g o x|x].
    + destruct T as [Hnz _]. exfalso. exact (loop_no_raise _ _ _ _ Hnz _ _ _ _ _ H).
    + discriminate.
    + destruct T as [Hz Hle]. injection H as <- <-. rewrite I0 in Hle.
      destruct x. repeat split; try assumption; try lia.
  - intros (Hz & Hm & Hl & -> & ->).
    rewrite (Rltb_true _ _ Hl).
    destruct (body cfg model obser (compute_jhjinv model) st0) as [st'|g o x|x].
    + destruct T as [Hnz _]. contradiction.
    + rewrite I0 in T. destruct x; try lia; try contradiction;
        destruct T as [Hnz _]; contradiction.
    + destruct x. reflexivity.
Qed.

(** Unit visibilities for two antennas as model and observation, and
    [chi_interval=0]. *)
Lemma raises_iff_zero_interval_witness :
  full_pol_phase_only 1 unit_vis unit_vis cfg_zero_interval =
  Some (Raised ZeroDivisionError 1).
Proof.
  apply (proj2 (raises_iff_zero_interval 0 unit_vis unit_vis cfg_zero_interval
                  ZeroDivisionError 1 eq_refl)).
  cbn [cfg_zero_interval chi_interval maxiter min_delta_g].
  repeat split; try reflexivity; try lia; lra.
Defined.

(** ** The diagnostic *)

(** X16: with a tolerance [chi_tol >= 0], the default included, the solver
    never leaves through the divergence test and never prints: the
    tolerance test before it catches every increase of chi-squared. *)
Theorem no_diagnostic_for_nonneg_tol (fuel : nat) (model obser : visarr) (cfg : config)
                                     (r : result) :
  0 <= chi_tol cfg ->
  full_pol_phase_only fuel model obser cfg = Some (Returned r) ->
  ret_exit r <> ExitBadSolutions /\ ret_stdout r = [].
Proof.
  intros Htol H. unfold full_pol_phase_only in H.
  pose proof (bad_solutions_unreachable cfg model obser _ Htol _ _ _ _ H) as Hne.
  split; [exact Hne|].
  rewrite (loop_stdout _ _ _ _ _ _ _ _ H).
  destruct (ret_exit r); try reflexivity. contradiction.
Qed.

(** The run on [model_bad] and [obser_bad], where chi-squared goes up. *)
Lemma no_diagnostic_for_nonneg_tol_witness :
  exists r,
    full_pol_phase_only 2 model_bad obser_bad cfg_chi1 = Some (Returned r)
    /\ ret_exit r <> ExitBadSolutions /\ ret_stdout r = [].
Proof.
  destruct run_shadowed as (st1 & g & _ & _ & _ & Hrun).
  assert (Htol : 0 <= chi_tol cfg_chi1) by (cbn; lra).
  eexists. split; [exact Hrun|].
  exact (no_diagnostic_for_nonneg_tol 2 _ _ cfg_chi1 _ Htol Hrun).
Defined.

(** ** The driver's pass over a chunk *)

Lemma default_max_iterations : max_iterations default_config = 31%nat.
Proof. reflexivity. Qed.

(** A run with the default keyword arguments ends, returns, and prints
    nothing. *)
Lemma default_run (model obser : visarr) :
  exists r,
    (forall fuel, (31 < fuel)%nat ->
       full_pol_phase_only fuel model obser default_config = Some (Returned r))
    /\ ret_stdout r = [].
Proof.
  destruct (loop_terminates default_config model obser (compute_jhjinv model)
              32 0 (init_state model)) as (out & Hrun & _).
  { cbn. lia. }
  destruct out as [r|e k].
  - exists r. split.
    + intros fuel Hfuel. unfold full_pol_phase_only.
      apply loop_fuel_mono with (fuel := 32%nat); [exact Hrun|lia].
    + assert (Htol : 0 <= chi_tol default_config) by (cbn; lra).
      pose proof (bad_solutions_unreachable _ _ _ _ Htol _ _ _ _ Hrun) as Hne.
      rewrite (loop_stdout _ _ _ _ _ _ _ _ Hrun).
      destruct (ret_exit r); try reflexivity. contradiction.
  - exfalso. eapply loop_no_raise; [|exact Hrun]. cbn. discriminate.
Qed.

(** X17: the driver's pass over a chunk always ends: for every pair of
    arrays of one shape, with more than 31 units of fuel it yields corrected
    visibilities of that shape, raises nothing and the solver prints
    nothing. *)
Theorem calibrate_chunk_total (obser model : visarr) :
  vshape obser = vshape model ->
  exists v,
    (forall fuel, (31 < fuel)%nat ->
       calibrate_chunk fuel obser model = Some (Corrected v []))
    /\ vshape v = vshape obser.
Proof.
  intros _.
  destruct (default_run model obser) as (r & Hrun & Hout).
  exists (apply_gains obser (ret_gains r)). split; [|reflexivity].
  intros fuel Hfuel. unfold calibrate_chunk. rewrite (Hrun fuel Hfuel), Hout.
  reflexivity.
Qed.

(** Unit visibilities observed against a model with unit flux in the
    (0,1) correlation, for two antennas. *)
Lemma calibrate_chunk_total_witness :
  exists v,
    (forall fuel, (31 < fuel)%nat ->
       calibrate_chunk fuel unit_vis (const_vis two_ants (mkM2 C0 C1 C0 C0)) =
       Some (Corrected v []))
    /\ vshape v = vshape unit_vis.
Proof.
  exact (calibrate_chunk_total unit_vis (const_vis two_ants (mkM2 C0 C1 C0 C0)) eq_refl).
Defined.

Lemma M2sub_self (a : M2 C) : M2sub a a = M2zero.
Proof. destruct a as [[a1 a2] [a3 a4] [a5 a6] [a7 a8]]. M2_ring. Qed.

Lemma norm_gains_diff_zero (g g' : gainarr) :
  (forall t f p, adat g t f p = adat g' t f p) -> norm_ant (gains_diff g g') = 0.
Proof.
  intros H. unfold norm_ant. cbn [gains_diff ashape adat].
  rewrite sum_upto_zero; [apply sqrt_0|].
  intros t _. apply sum_upto_zero. intros f _. apply sum_upto_zero. intros p _.
  rewrite H, M2sub_self. apply M2abs2_zero.
Qed.

(** With the default keyword arguments, a run whose first update leaves the
    phases at zero ends at the [while] test after that iteration. *)
Lemma default_run_still (model obser : visarr) :
  (forall t f p,
     adat (next_phases model obser (compute_jhjinv model) (init_state model)) t f p =
     mkV2 0 0) ->
  forall fuel, (2 <= fuel)%nat ->
    full_pol_phase_only fuel model obser default_config =
    Some (Returned (mkResult
            (gains_of_phases
               (next_phases model obser (compute_jhjinv model) (init_state model)))
            [] ExitDeltaG 1)).
Proof.
  intros Hph fuel Hfuel.
  destruct fuel as [|[|fuel]]; try lia.
  unfold full_pol_phase_only. cbn [loop].
  rewrite Rltb_true by (cbn; lra).
  rewrite body_unchecked; [| cbn; lia | discriminate | cbn; discriminate].
  cbv zeta. cbn [delta_g gains].
  rewrite norm_gains_diff_zero.
  - rewrite Rltb_false by (cbn; lra). reflexivity.
  - intros t f p. rewrite (zero_phase_gain _ t f p (Hph t f p)).
    apply zero_phase_gain. reflexivity.
Qed.

Lemma apply_unit_block (g : gainarr) (V : visarr) (t f l m : nat) :
  adat g t f l = M2id -> adat g t f m = M2id ->
  vdat (apply_gains V g) t f l m = vdat V t f l m.
Proof.
  intros Hl Hm. cbn [apply_gains vdat]. rewrite Hl, Hm.
  rewrite inv_gains_id, M2mulT_conj, M2H_id, M2mul_id_l, M2mul_id_r. reflexivity.
Qed.



(** ** Hermitian symmetry *)

Lemma gmgh_hermitian (a b v : M2 C) :
  M2mulT (M2mul b (M2H v)) (M2conj a) = M2H (M2mulT (M2mul a v) (M2conj b)).
Proof.
  rewrite !M2mulT_conj, !M2H_mul, M2H_involutive, M2mul_assoc. reflexivity.
Qed.

(** X20: [apply_gains] and the corruption [G.V.G^H] keep the symmetry of
    visibilities: when the visibility of baseline [(m, l)] is the conjugate
    transpose of that of [(l, m)], so it is afterwards, for gains whose
    blocks at the two antennas have non-zero determinants. *)
Theorem hermitian_pair_kept (V : visarr) (G : gainarr) (t f l m : nat) :
  hermitian_pair V t f l m ->
  det2 (adat G t f l) <> C0 -> det2 (adat G t f m) <> C0 ->
  hermitian_pair (apply_gains V G) t f l m /\ hermitian_pair (corrupt V G) t f l m.
Proof.
  unfold hermitian_pair. intros H _ _. split.
  - cbn [apply_gains vdat]. rewrite H. apply gmgh_hermitian.
  - unfold corrupt, gmgh_block. cbn [vdat]. rewrite H. apply gmgh_hermitian.
Qed.

(** Unit visibilities and gains [diag(1j, 2)], at the baseline (0, 1). *)
Lemma hermitian_pair_kept_witness :
  hermitian_pair (apply_gains unit_vis skew_gains) 0 0 0 1.
Proof.
  assert (H : hermitian_pair unit_vis 0 0 0 1).
  { unfold hermitian_pair, unit_vis, const_vis. cbn [vdat]. symmetry. apply M2H_id. }
  assert (D : forall p, det2 (adat skew_gains 0 0 p) <> C0).
  { intros p. cbn [skew_gains adat]. C_unfold.
    intros E. injection E as E1 E2. lra. }
  exact (proj1 (hermitian_pair_kept unit_vis skew_gains 0 0 0 1 H (D 0%nat) (D 1%nat))).
Defined.
